(** * Verification development for the PhET-iO instrumentation layer (tandem)

    Shallow embedding of the IO Type / StateSchema system, the Tandem naming and
    registration tree, the dynamic element containers (PhetioGroup, PhetioCapsule)
    and the overrides-file API validation. *)

From Stdlib Require Import List String Ascii Bool ZArith QArith Lia.
Import ListNotations.
Open Scope string_scope.
Set Warnings "-register-all".

(** ** JavaScript values *)

(** A JS number: finite values (doubles are a subset of the rationals), the two
    infinities and NaN. *)
Inductive num : Type :=
| NFin (q : Q)
| NPosInf
| NNegInf
| NNaN.

Inductive jsval : Type :=
| JUndef
| JNull
| JBool (b : bool)
| JNum (n : num)
| JStr (s : string)
| JArr (items : list jsval)
| JObj (fields : list (string * jsval)).  (** own keys in [Object.keys] order *)

Definition jnum (z : Z) : jsval := JNum (NFin (inject_Z z)).

(** [===] on numbers: NaN is not equal to anything. *)
Definition num_strict_eq (a b : num) : bool :=
  match a, b with
  | NFin x, NFin y => Qeq_bool x y
  | NPosInf, NPosInf => true
  | NNegInf, NNegInf => true
  | _, _ => false
  end.

(** [===]: arrays and objects compare by reference; two distinct literals (as
    produced by JSON parsing) are never identical. *)
Definition strict_eq (a b : jsval) : bool :=
  match a, b with
  | JUndef, JUndef => true
  | JNull, JNull => true
  | JBool x, JBool y => Bool.eqb x y
  | JNum x, JNum y => num_strict_eq x y
  | JStr x, JStr y => String.eqb x y
  | _, _ => false
  end.

Definition typeof (v : jsval) : string :=
  match v with
  | JUndef => "undefined"
  | JNull => "object"
  | JBool _ => "boolean"
  | JNum _ => "number"
  | JStr _ => "string"
  | JArr _ => "object"
  | JObj _ => "object"
  end.

Definition truthy (v : jsval) : bool :=
  match v with
  | JUndef | JNull => false
  | JBool b => b
  | JNum (NFin q) => negb (Qeq_bool q 0)
  | JNum NNaN => false
  | JNum _ => true
  | JStr s => negb (String.eqb s "")
  | JArr _ | JObj _ => true
  end.

Definition isArray (v : jsval) : bool :=
  match v with JArr _ => true | _ => false end.

(** Decimal rendering of array/string indices, as used for their own keys. *)
Fixpoint string_of_nat_aux (fuel n : nat) (acc : string) : string :=
  match fuel with
  | O => acc
  | S f =>
      let acc' := String (ascii_of_nat (48 + n mod 10)) acc in
      if Nat.ltb n 10 then acc' else string_of_nat_aux f (n / 10) acc'
  end.

Definition string_of_nat (n : nat) : string := string_of_nat_aux (S n) n "".

Definition index_keys (len : nat) : list string := map string_of_nat (seq 0 len).

Fixpoint assoc_lookup {A} (k : string) (l : list (string * A)) : option A :=
  match l with
  | [] => None
  | (k', v) :: rest => if String.eqb k k' then Some v else assoc_lookup k rest
  end.

(** ** Exceptions: assertion failures and type errors *)

Inductive js_error : Type :=
| AssertionError (msg : string)
| TypeError (msg : string)
| Error (msg : string).

Inductive outcome (A : Type) : Type :=
| Ok (a : A)
| Throw (e : js_error).
Arguments Ok {A} a.
Arguments Throw {A} e.

Definition bind {A B} (c : outcome A) (k : A -> outcome B) : outcome B :=
  match c with Ok a => k a | Throw e => Throw e end.

Notation "x <- c1 ;; c2" := (bind c1 (fun x => c2))
  (at level 61, c1 at next level, right associativity).
Notation "c1 ;; c2" := (bind c1 (fun _ => c2))
  (at level 61, right associativity).

(** [assert && assert( cond, msg )]: only active when assertions are enabled. *)
Definition js_assert (asserts cond : bool) (msg : string) : outcome unit :=
  if asserts && negb cond then Throw (AssertionError msg) else Ok tt.

(** Property read [v[ k ]] (own properties; JSON state objects carry no
    interesting prototype properties). *)
Definition get_prop (v : jsval) (k : string) : outcome jsval :=
  match v with
  | JUndef | JNull => Throw (TypeError ("Cannot read property " ++ k))
  | JObj fs => Ok (match assoc_lookup k fs with Some x => x | None => JUndef end)
  | JArr l =>
      if String.eqb k "length" then Ok (jnum (Z.of_nat (List.length l)))
      else Ok (match find (fun i => String.eqb (string_of_nat i) k) (seq 0 (List.length l)) with
               | Some i => nth i l JUndef
               | None => JUndef
               end)
  | JStr s =>
      if String.eqb k "length" then Ok (jnum (Z.of_nat (String.length s)))
      else Ok (match find (fun i => String.eqb (string_of_nat i) k) (seq 0 (String.length s)) with
               | Some i => JStr (substring i 1 s)
               | None => JUndef
               end)
  | JBool _ | JNum _ => Ok JUndef
  end.

(** Whether [v] has an own property [k] (what [v.hasOwnProperty( k )] answers
    when the method is Object.prototype's). *)
Definition has_own (v : jsval) (k : string) : outcome bool :=
  match v with
  | JUndef | JNull => Throw (TypeError ("Cannot read property hasOwnProperty"))
  | JObj fs => Ok (existsb (String.eqb k) (map fst fs))
  | JArr l => Ok (String.eqb k "length" || existsb (String.eqb k) (index_keys (List.length l)))
  | JStr s => Ok (String.eqb k "length" || existsb (String.eqb k) (index_keys (String.length s)))
  | JBool _ | JNum _ => Ok false
  end.

(** The call [v.hasOwnProperty( k )]: the method is inherited from
    Object.prototype unless the object has an own property [hasOwnProperty],
    whose value (a state value, never a function) cannot be called. *)
Definition call_hasOwnProperty (v : jsval) (k : string) : outcome bool :=
  match v with
  | JObj fs =>
      if existsb (String.eqb "hasOwnProperty") (map fst fs)
      then Throw (TypeError "hasOwnProperty is not a function")
      else has_own v k
  | _ => has_own v k
  end.

(** [Object.keys( v )] *)
Definition object_keys (v : jsval) : outcome (list string) :=
  match v with
  | JUndef | JNull => Throw (TypeError "Cannot convert undefined or null to object")
  | JObj fs => Ok (map fst fs)
  | JArr l => Ok (index_keys (List.length l))
  | JStr s => Ok (index_keys (String.length s))
  | JBool _ | JNum _ => Ok []
  end.

(** ** Validators *)

(** Modelled from the spec: axon's [ValidatorDef] and [validate] are not part of
    the sources.  A validator is a predicate describing the legal values: an
    optional [valueType] (a [typeof] name) and an optional [isValidValue];
    [ValidatorDef.isValueValid] holds when every supplied check holds, and
    [validate] asserts it when assertions are enabled. *)
Record validator : Type := mkValidator {
  valueType : option string;
  isValidValue : option (jsval -> bool)
}.

Definition isValueValid (v : jsval) (val : validator) : bool :=
  (match valueType val with Some t => String.eqb (typeof v) t | None => true end) &&
  (match isValidValue val with Some f => f v | None => true end).

Definition validate (asserts : bool) (v : jsval) (val : validator) : outcome unit :=
  js_assert asserts (isValueValid v val) "value failed validation".

(** ** StateSchema and IOType *)

(** A StateSchema is either a "value" schema (display string and validator) or a
    "composite" schema mapping keys to IO Types, with an optional [_private]
    sub-mapping.  [publicSchema] lists, in order, the keys of [compositeSchema]
    other than [_private]. *)
Inductive schema_of (T : Type) : Type :=
| ValueSchema (displayString : string) (svalidator : validator)
| CompositeSchema (publicSchema : list (string * T))
                  (privateSchema : option (list (string * T))).
Arguments ValueSchema {T} displayString svalidator.
Arguments CompositeSchema {T} publicSchema privateSchema.

Definition isComposite {T} (s : schema_of T) : bool :=
  match s with CompositeSchema _ _ => true | ValueSchema _ _ => false end.

(** An IOType as built by its constructor.  [configToStateObject] is the
    [toStateObject] supplied in the config (taking the assertion flag), [None]
    when it is inherited from the supertype. *)
Inductive IOType : Type := mkIOType {
  typeName : string;
  supertype : option IOType;
  ioValidator : validator;
  configToStateObject : option (bool -> jsval -> outcome jsval);
  fromStateObject : jsval -> jsval;
  stateSchema : option (schema_of IOType)
}.

(** [IOType.isStateObjectValid] together with [StateSchema.checkStateObjectValid]
    (the nested [validateStateObject] calls are [isStateObjectValid( v, true )] on
    the component type, their result discarded).  [publicSchemaKeys] and
    [privateSchemaKeys] are the arrays the schemas push their keys onto while the
    check walks up the hierarchy. *)
Fixpoint isStateObjectValid (asserts : bool) (t : IOType) (stateObject : jsval)
    (toAssert : bool) (publicSchemaKeys privateSchemaKeys : list string) {struct t}
    : outcome bool :=
  match t with
  | mkIOType _ sup _ _ _ ss =>
    let fix checkLevel (schemaLevel : list (string * IOType)) (objectLevel : jsval)
          (valid : option bool) (keyList : list string)
          : outcome (option bool * list string) :=
      match schemaLevel with
      | [] => Ok (valid, keyList)
      | (key, keyType) :: rest =>
          validKey <- call_hasOwnProperty objectLevel key ;;
          js_assert (asserts && toAssert) validKey
            (key ++ " in state schema but not in the state object") ;;
          value <- get_prop objectLevel key ;;
          isStateObjectValid asserts keyType value true [] [] ;;
          checkLevel rest objectLevel (if validKey then valid else Some false)
            (app keyList [key])
      end in
    let checkStateObjectValid (schema : schema_of IOType)
          : outcome (option bool * list string * list string) :=
      match schema with
      | CompositeSchema pub priv =>
          r <- checkLevel pub stateObject None publicSchemaKeys ;;
          let '(valid, pubKeys) := r in
          match priv with
          | None => Ok (valid, pubKeys, privateSchemaKeys)
          | Some privLevel =>
              privateObject <- get_prop stateObject "_private" ;;
              r' <- checkLevel privLevel privateObject valid privateSchemaKeys ;;
              let '(valid', privKeys) := r' in Ok (valid', pubKeys, privKeys)
          end
      | ValueSchema _ v =>
          (if toAssert then validate asserts stateObject v else Ok tt) ;;
          Ok (Some (isValueValid stateObject v), publicSchemaKeys, privateSchemaKeys)
      end in
    (* the stateSchema, if any, decides or returns null to keep checking *)
    r <- match ss with
         | Some schema => checkStateObjectValid schema
         | None => Ok (None, publicSchemaKeys, privateSchemaKeys)
         end ;;
    let '(validSoFar, pubKeys, privKeys) := r in
    match validSoFar with
    | Some b => Ok b
    | None =>
      let composite := match ss with Some schema => isComposite schema | None => false end in
      match sup with
      | Some s =>
          if negb composite
          then isStateObjectValid asserts s stateObject toAssert pubKeys privKeys
          else Ok true
      | None =>
          (* at the root: nothing in the stateObject may be undescribed by a schema *)
          if truthy stateObject && negb (String.eqb (typeof stateObject) "string")
             && negb (isArray stateObject)
          then
            let check (keys : list string) (kind key : string) : outcome bool :=
              let keyValid := existsb (String.eqb key) keys in
              js_assert (asserts && toAssert) keyValid
                ("stateObject provided a " ++ kind ++ " key that is not in the schema: " ++ key) ;;
              Ok keyValid in
            let fix checkAll (keys : list string) (kind : string) (objectKeys : list string)
                  (valid : bool) : outcome bool :=
              match objectKeys with
              | [] => Ok valid
              | key :: rest =>
                  keyValid <- check keys kind key ;;
                  checkAll keys kind rest (valid && keyValid)
              end in
            publicKeys <- object_keys stateObject ;;
            valid <- checkAll pubKeys "public"
                       (filter (fun k => negb (String.eqb k "_private")) publicKeys) true ;;
            privateObject <- get_prop stateObject "_private" ;;
            if truthy privateObject then
              privateKeys <- object_keys privateObject ;;
              checkAll privKeys "private" privateKeys valid
            else Ok valid
          else Ok true
      end
    end
  end.

(** [validateStateObject]: assert if the stateObject is not valid. *)
Definition validateStateObject (asserts : bool) (t : IOType) (stateObject : jsval)
    : outcome unit :=
  isStateObjectValid asserts t stateObject true [] [] ;; Ok tt.

(** The [toStateObject] wrapper installed by the IOType constructor: validate the
    core object, serialize (by default from a composite stateSchema when no
    [toStateObject] was supplied), then validate the state object when this type
    has a [toStateObject] or stateSchema of its own.  In the default serialization
    the [_private] sub-object is placed after the public keys. *)
Fixpoint toStateObject (asserts : bool) (t : IOType) (coreObject : jsval) {struct t}
    : outcome jsval :=
  match t with
  | mkIOType _ sup val cfgTo _ ss =>
    let toStateObjectSupplied := match cfgTo with Some _ => true | None => false end in
    let stateSchemaSupplied := match ss with Some _ => true | None => false end in
    (* [schema.hasOwnProperty( stateKey )] on the schema level, for each key of
       the level: a key [hasOwnProperty] shadows the method with an IO Type *)
    let schemaHasOwn (schemaLevel : list (string * IOType)) : outcome unit :=
      if existsb (String.eqb "hasOwnProperty") (map fst schemaLevel)
      then Throw (TypeError "schema.hasOwnProperty is not a function")
      else Ok tt in
    let toStateObjectForSchemaLevel (schema : list (string * IOType))
          : outcome (list (string * jsval)) :=
      let fix forKeys (schemaLevel : list (string * IOType))
            : outcome (list (string * jsval)) :=
      match schemaLevel with
      | [] => Ok []
      | (key, keyType) :: rest =>
          schemaHasOwn schema ;;
          (if asserts
           then h <- call_hasOwnProperty coreObject key ;;
                js_assert asserts h
                  ("cannot get state because coreObject does not have expected schema key: " ++ key)
           else Ok tt) ;;
          v <- get_prop coreObject key ;;
          so <- toStateObject asserts keyType v ;;
          fields <- forKeys rest ;;
          Ok ((key, so) :: fields)
      end in
      forKeys schema in
    validate asserts coreObject val ;;
    stateObj <- match ss, cfgTo with
                | Some (CompositeSchema pub priv), None =>
                    pubFields <- toStateObjectForSchemaLevel pub ;;
                    match priv with
                    | None => Ok (JObj pubFields)
                    | Some privLevel =>
                        privFields <- toStateObjectForSchemaLevel privLevel ;;
                        Ok (JObj (app pubFields [("_private", JObj privFields)]))
                    end
                | _, Some f => f asserts coreObject
                | _, None =>
                    match sup with
                    | Some s => toStateObject asserts s coreObject
                    | None => Throw (TypeError "config.toStateObject is not a function")
                    end
                end ;;
    (if (toStateObjectSupplied || stateSchemaSupplied) && asserts
     then validateStateObject asserts t stateObj
     else Ok tt) ;;
    Ok stateObj
  end.

(** The configuration accepted by [new IOType( ioTypeName, config )] (the parts
    relevant to state). *)
Record ioConfig : Type := mkIOConfig {
  cfgSupertype : option IOType;
  cfgValidator : validator;
  cfgToStateObject : option (bool -> jsval -> outcome jsval);
  cfgFromStateObject : option (jsval -> jsval);
  cfgStateSchema : option (schema_of IOType)
}.

Definition DEFAULT_STATE : jsval := JNull.

Definition ObjectIO_toStateObject (asserts : bool) (coreObject : jsval) : outcome jsval :=
  (if asserts
   then p <- get_prop coreObject "phetioState" ;;
        js_assert asserts (negb (truthy p)) "fell back to root serialization state"
   else Ok tt) ;;
  Ok DEFAULT_STATE.

(** ObjectIO, the root: it is built while the module-level [ObjectIO] is still
    null, so its supertype is null. *)
Definition ObjectIO : IOType := {|
  typeName := "ObjectIO";
  supertype := None;
  ioValidator := mkValidator None (Some (fun _ => true));
  configToStateObject := Some ObjectIO_toStateObject;
  fromStateObject := fun _ => JNull;
  stateSchema := None
|}.

(** [new IOType( ioTypeName, config )]: [config.supertype || ObjectIO], and the
    state methods not supplied are inherited from the supertype. *)
Definition newIOType (ioTypeName : string) (config : ioConfig) : IOType :=
  let sup := match cfgSupertype config with Some s => s | None => ObjectIO end in
  {| typeName := ioTypeName;
     supertype := Some sup;
     ioValidator := cfgValidator config;
     configToStateObject := cfgToStateObject config;
     fromStateObject := match cfgFromStateObject config with
                        | Some f => f
                        | None => fromStateObject sup
                        end;
     stateSchema := cfgStateSchema config |}.

Definition stubTrue (_ : jsval) : bool := true.

Definition ValueIO : IOType :=
  newIOType "ValueIO" {|
    cfgSupertype := Some ObjectIO;
    cfgValidator := mkValidator None (Some stubTrue);
    cfgToStateObject := Some (fun _ coreObject => Ok coreObject);
    cfgFromStateObject := Some (fun stateObject => stateObject);
    cfgStateSchema := Some (ValueSchema "*" (mkValidator None (Some stubTrue)))
  |}.

(** NumberIO's own serialization functions. *)
Definition NumberIO_toStateObject (value : jsval) : jsval :=
  if strict_eq value (JNum NPosInf) then JStr "POSITIVE_INFINITY"
  else if strict_eq value (JNum NNegInf) then JStr "NEGATIVE_INFINITY"
  else value.

Definition NumberIO_fromStateObject (stateObject : jsval) : jsval :=
  if strict_eq stateObject (JStr "POSITIVE_INFINITY") then JNum NPosInf
  else if strict_eq stateObject (JStr "NEGATIVE_INFINITY") then JNum NNegInf
  else stateObject.

(** [value === 'POSITIVE_INFINITY' || value === 'NEGATIVE_INFINITY' ||
     ( typeof value === 'number' && !isNaN( value ) )] *)
Definition NumberIO_isValidValue (value : jsval) : bool :=
  strict_eq value (JStr "POSITIVE_INFINITY") ||
  strict_eq value (JStr "NEGATIVE_INFINITY") ||
  (String.eqb (typeof value) "number" &&
   negb (match value with JNum NNaN => true | _ => false end)).

Definition NumberIO : IOType :=
  newIOType "NumberIO" {|
    cfgSupertype := None;
    cfgValidator := mkValidator (Some "number") None;
    cfgToStateObject := Some (fun _ value => Ok (NumberIO_toStateObject value));
    cfgFromStateObject := Some NumberIO_fromStateObject;
    cfgStateSchema := Some (ValueSchema "'POSITIVE_INFINITY'|'NEGATIVE_INFINITY'|number"
                              (mkValidator None (Some NumberIO_isValidValue)))
  |}.

Definition StringIO : IOType :=
  newIOType "StringIO" {|
    cfgSupertype := Some ValueIO;
    cfgValidator := mkValidator (Some "string") None;
    cfgToStateObject := None;
    cfgFromStateObject := None;
    cfgStateSchema := Some (ValueSchema "string" (mkValidator (Some "string") None))
  |}.

Definition BooleanIO : IOType :=
  newIOType "BooleanIO" {|
    cfgSupertype := Some ValueIO;
    cfgValidator := mkValidator (Some "boolean") None;
    cfgToStateObject := None;
    cfgFromStateObject := None;
    cfgStateSchema := Some (ValueSchema "boolean" (mkValidator (Some "boolean") None))
  |}.

(** The IOType of the closed-world scenario: [new IOType( 'TestIO', {
    isValidValue: () => true, stateSchema: { a: NumberIO, b: StringIO } } )]. *)
Definition TestIO : IOType :=
  newIOType "TestIO" {|
    cfgSupertype := None;
    cfgValidator := mkValidator None (Some stubTrue);
    cfgToStateObject := None;
    cfgFromStateObject := None;
    cfgStateSchema := Some (CompositeSchema [("a", NumberIO); ("b", StringIO)] None)
  |}.

Definition abc_state : jsval :=
  JObj [("a", jnum 1); ("b", JStr "hi"); ("c", JBool true)].
Definition ab_state : jsval := JObj [("a", jnum 1); ("b", JStr "hi")].

(** ** Tandem: the naming tree *)

Module Tandem.

Inductive tandem_kind : Type :=
| RootTandem      (** [class RootTandem extends Tandem] *)
| PlainTandem     (** [class Tandem] *)
| DynamicTandem.  (** [class DynamicTandem extends Tandem] *)

(** A Tandem instance.  Tandems refer to each other by reference: a reference is
    the position of the instance in the [heap] of all tandems created so far. *)
Record tandem : Type := mkTandem {
  parentTandem : option nat;
  name : string;
  phetioID : string;
  children : list (string * nat);   (** [this.children], in insertion order *)
  required : bool;
  supplied : bool;
  isDisposed : bool;
  kind : tandem_kind
}.

Definition heap : Type := list tandem.

Definition METADATA_KEY : string := "_metadata".
Definition REQUIRED_TANDEM_NAME : string := "requiredTandem".
Definition OPTIONAL_TANDEM_NAME : string := "optionalTandem".
Definition TEST_TANDEM_NAME : string := "test".

(** Modelled from the spec: PhetioIDUtils is not part of the sources.  A
    phetioID is the parent's phetioID, the separator ['.'] and the name, and the
    two general top-level component names are [general] and [global]. *)
Definition PhetioIDUtils_append (parentID childName : string) : string :=
  parentID ++ "." ++ childName.
Definition GENERAL_COMPONENT_NAME : string := "general".
Definition GLOBAL_COMPONENT_NAME : string := "global".

Definition is_alnum (c : ascii) : bool :=
  let n := nat_of_ascii c in
  (Nat.leb 48 n && Nat.leb n 57) || (Nat.leb 65 n && Nat.leb n 90) ||
  (Nat.leb 97 n && Nat.leb n 122).

Fixpoint all_chars (p : ascii -> bool) (s : string) : bool :=
  match s with EmptyString => true | String c s' => p c && all_chars p s' end.

(** [getTermRegex().test( name )]: [/^[a-zA-Z0-9[\],]+$/] for Tandem and
    RootTandem, [/^[a-zA-Z0-9_]+$/] for DynamicTandem. *)
Definition termRegexTest (k : tandem_kind) (s : string) : bool :=
  negb (String.eqb s "") &&
  all_chars (fun c => match k with
                      | DynamicTandem => is_alnum c || Ascii.eqb c "_"%char
                      | _ => is_alnum c || Ascii.eqb c "["%char || Ascii.eqb c "]"%char ||
                             Ascii.eqb c ","%char
                      end) s.

Fixpoint endsWith (s suffix : string) : bool :=
  String.eqb s suffix ||
  match s with EmptyString => false | String _ s' => endsWith s' suffix end.

Fixpoint replace_nth {A} (l : list A) (i : nat) (x : A) : list A :=
  match l, i with
  | [], _ => []
  | _ :: rest, O => x :: rest
  | y :: rest, S j => y :: replace_nth rest j x
  end.

Definition lookup (h : heap) (r : nat) : outcome tandem :=
  match nth_error h r with
  | Some t => Ok t
  | None => Throw (TypeError "not a Tandem")
  end.

(** [obj[ key ] = value] on a string-keyed object literal. *)
Fixpoint assoc_set {A} (k : string) (v : A) (l : list (string * A)) : list (string * A) :=
  match l with
  | [] => [(k, v)]
  | (k', v') :: rest => if String.eqb k k' then (k, v) :: rest else (k', v') :: assoc_set k v rest
  end.

(** Whether [this.children] has an own property [childName]. *)
Definition hasChild (t : tandem) (childName : string) : bool :=
  match assoc_lookup childName (children t) with Some _ => true | None => false end.

(** [hasChild( name )], i.e. [this.children.hasOwnProperty( name )]: the method
    is inherited from Object.prototype unless a child named [hasOwnProperty]
    shadows it with a Tandem, which is not callable. *)
Definition hasChildJS (t : tandem) (childName : string) : outcome bool :=
  if hasChild t "hasOwnProperty"
  then Throw (TypeError "this.children.hasOwnProperty is not a function")
  else Ok (hasChild t childName).

(** The options of [createTandem] and of the Tandem constructor. *)
Record tandem_options : Type := mkOptions {
  opt_required : option bool;
  opt_supplied : option bool
}.

(** [getExtendedOptions]: the parent's [required]/[supplied] unless overridden. *)
Definition getExtendedOptions (t : tandem) (o : tandem_options) : bool * bool :=
  (match opt_required o with Some b => b | None => required t end,
   match opt_supplied o with Some b => b | None => supplied t end).

(** [new Tandem( parentTandem, name, options )] for a child of the tandem [p]
    (of class [k]); the new tandem is allocated at the end of the heap. *)
Definition newChildTandem (asserts : bool) (k : tandem_kind) (h : heap) (p : nat)
    (childName : string) (req sup : bool) : outcome (heap * nat) :=
  js_assert asserts (termRegexTest k childName)
    ("name should match the regex pattern: " ++ childName) ;;
  js_assert asserts (negb (String.eqb childName METADATA_KEY))
    "name cannot match Tandem.METADATA_KEY" ;;
  parent <- lookup h p ;;
  let r := List.length h in
  let child := mkTandem (Some p) childName (PhetioIDUtils_append (phetioID parent) childName)
                 [] req sup false k in
  (if asserts then
     has <- hasChildJS parent childName ;;
     js_assert asserts (negb has) ("parent should not have child: " ++ childName)
   else Ok tt) ;;
  (* parentTandem.addChild( name, this ) *)
  (if asserts then
     has <- hasChildJS parent childName ;;
     js_assert asserts (negb has) "addChild"
   else Ok tt) ;;
  let parent' := {| parentTandem := parentTandem parent; name := name parent;
                    phetioID := phetioID parent;
                    children := assoc_set childName r (children parent);
                    required := required parent; supplied := supplied parent;
                    isDisposed := isDisposed parent; kind := kind parent |} in
  Ok (replace_nth (app h [child]) p parent', r).

(** [RootTandem.createTandem]'s allow-list. *)
Definition allowedOnRoot (childName : string) : bool :=
  String.eqb childName GLOBAL_COMPONENT_NAME || String.eqb childName REQUIRED_TANDEM_NAME ||
  String.eqb childName OPTIONAL_TANDEM_NAME || String.eqb childName TEST_TANDEM_NAME ||
  String.eqb childName GENERAL_COMPONENT_NAME || endsWith childName "Screen".

(** The check [RootTandem.createTandem] performs before calling
    [super.createTandem]; other tandem classes perform none. *)
Definition rootCreateTandemCheck (asserts VALIDATION : bool) (k : tandem_kind)
    (childName : string) : outcome unit :=
  match k with
  | RootTandem =>
      if VALIDATION
      then js_assert asserts (allowedOnRoot childName)
             ("tandem name not allowed on root: " ++ childName)
      else Ok tt
  | _ => Ok tt
  end.

(** [tandem.createTandem( name, options )] on the tandem [p] (dispatching on its
    class): re-use the child if it already exists, asserting it has the same
    [required]/[supplied] flags, otherwise construct it. *)
Definition createTandem (asserts VALIDATION : bool) (h : heap) (p : nat)
    (childName : string) (o : tandem_options) : outcome (heap * nat) :=
  parent <- lookup h p ;;
  rootCreateTandemCheck asserts VALIDATION (kind parent) childName ;;
  let '(req, sup) := getExtendedOptions parent o in
  has <- hasChildJS parent childName ;;
  (* [this.children[ name ]] when [this.hasChild( name )]; [has] holds exactly
     when the lookup finds a child *)
  match has, assoc_lookup childName (children parent) with
  | true, Some c =>
      currentChild <- lookup h c ;;
      js_assert asserts (Bool.eqb (required currentChild) req) "required mismatch" ;;
      js_assert asserts (Bool.eqb (supplied currentChild) sup) "supplied mismatch" ;;
      Ok (h, c)
  | _, _ => newChildTandem asserts PlainTandem h p childName req sup
  end.

(** A simulation's tandem tree: [Tandem.ROOT] ("sim") and [Tandem.ROOT_TEST]. *)
Definition ROOT : tandem := mkTandem None "sim" "sim" [("test", 1%nat)] true true false RootTandem.
Definition ROOT_TEST : tandem :=
  mkTandem (Some 0%nat) "test" "sim.test" [] true true false PlainTandem.
Definition sim_heap : heap := [ROOT; ROOT_TEST].

Definition flags (req sup : bool) : tandem_options := mkOptions (Some req) (Some sup).

End Tandem.

(** ** Tandem: buffered registration of PhetioObjects *)

Module Registration.

(** A PhetioObject as seen by registration: its identity and its tandem's
    [required]/[supplied] flags. *)
Record phetio_object : Type := mkPhetioObject {
  po_id : nat;
  po_required : bool;
  po_supplied : bool
}.

(** Listeners are phetioEngine-like objects; calling [addPhetioObject] on one is
    recorded as a notification (listener, object). *)
Definition listener : Type := nat.

(** The module-level state of Tandem.js. *)
Record registry : Type := mkRegistry {
  launched : bool;
  bufferedPhetioObjects : list phetio_object;
  phetioObjectListeners : list listener;
  notifications : list (listener * phetio_object)
}.

Definition set_buffer (st : registry) (b : list phetio_object) : registry :=
  mkRegistry (launched st) b (phetioObjectListeners st) (notifications st).

Definition notify_all (st : registry) (o : phetio_object) : registry :=
  mkRegistry (launched st) (bufferedPhetioObjects st) (phetioObjectListeners st)
    (app (notifications st) (map (fun l => (l, o)) (phetioObjectListeners st))).

(** [tandem.addPhetioObject( phetioObject )] *)
Definition addPhetioObject (asserts PHET_IO_ENABLED VALIDATION : bool)
    (o : phetio_object) (st : registry) : outcome registry :=
  if PHET_IO_ENABLED then
    js_assert (asserts && VALIDATION) (negb (po_required o && negb (po_supplied o)))
      "Tandem was required but not supplied" ;;
    if negb (po_required o) && negb (po_supplied o) then Ok st
    else if negb (launched st) then Ok (set_buffer st (app (bufferedPhetioObjects st) [o]))
    else Ok (notify_all st o)
  else Ok st.

(** [Tandem.addPhetioObjectListener( listener )] *)
Definition addPhetioObjectListener (l : listener) (st : registry) : registry :=
  mkRegistry (launched st) (bufferedPhetioObjects st)
    (app (phetioObjectListeners st) [l]) (notifications st).

(** [while ( bufferedPhetioObjects.length > 0 ) { const phetioObject =
    bufferedPhetioObjects.shift(); phetioObject.tandem.addPhetioObject( phetioObject ); }],
    run for at most [fuel] iterations. *)
Fixpoint flushBuffer (asserts PHET_IO_ENABLED VALIDATION : bool) (fuel : nat)
    (st : registry) : outcome registry :=
  match fuel with
  | O => Ok st
  | S f =>
      match bufferedPhetioObjects st with
      | [] => Ok st
      | o :: rest =>
          st' <- addPhetioObject asserts PHET_IO_ENABLED VALIDATION o (set_buffer st rest) ;;
          flushBuffer asserts PHET_IO_ENABLED VALIDATION f st'
      end
  end.

(** [Tandem.launch()]; the loop is bounded by the buffer's length at launch, which
    suffices since each iteration removes one object and, once launched, adding
    no longer buffers. *)
Definition launch (asserts PHET_IO_ENABLED VALIDATION : bool) (st : registry)
    : outcome registry :=
  js_assert asserts (negb (launched st)) "Tandem cannot be launched twice" ;;
  let st1 := mkRegistry true (bufferedPhetioObjects st) (phetioObjectListeners st)
               (notifications st) in
  st2 <- flushBuffer asserts PHET_IO_ENABLED VALIDATION
           (List.length (bufferedPhetioObjects st1)) st1 ;;
  js_assert asserts (Nat.eqb (List.length (bufferedPhetioObjects st2)) 0)
    "bufferedPhetioObjects should be empty" ;;
  Ok st2.

(** Registering several objects in order. *)
Fixpoint registerAll (asserts PHET_IO_ENABLED VALIDATION : bool)
    (os : list phetio_object) (st : registry) : outcome registry :=
  match os with
  | [] => Ok st
  | o :: rest =>
      st' <- addPhetioObject asserts PHET_IO_ENABLED VALIDATION o st ;;
      registerAll asserts PHET_IO_ENABLED VALIDATION rest st'
  end.

(** Every object's tandem is supplied. *)
Definition supplied_all (os : list phetio_object) : Prop :=
  Forall (fun o => po_supplied o = true) os.

(** The calls [listener.addPhetioObject( o )] for each object in turn, each
    listener in turn. *)
Definition listener_calls (ls : list listener) (os : list phetio_object)
    : list (listener * phetio_object) :=
  flat_map (fun o => map (fun l => (l, o)) ls) os.

End Registration.

(** ** Dynamic element containers: PhetioDynamicElementContainer *)

Module Dynamic.

(** A dynamic element: its identity (JS object identity, [===]) and, for a group
    element, the index in its tandem name. *)
Record element : Type := mkElement {
  el_id : nat;
  el_index : option nat
}.

Definition same_element (a b : element) : bool := Nat.eqb (el_id a) (el_id b).

(** [array.indexOf( e )] *)
Fixpoint indexOf (l : list element) (e : element) : option nat :=
  match l with
  | [] => None
  | x :: rest =>
      if same_element x e then Some 0%nat
      else match indexOf rest e with Some i => Some (S i) | None => None end
  end.

(** [array.splice( i, 1 )] *)
Fixpoint remove_at {A} (l : list A) (i : nat) : list A :=
  match l, i with
  | [], _ => []
  | _ :: rest, O => rest
  | x :: rest, S j => x :: remove_at rest j
  end.

(** Modelled from the spec: phet-core's [arrayRemove] is not among the sources.
    It removes the first occurrence of the element; an absent element is a fatal
    assertion (section 4.4, failure semantics).  Without assertions its
    [array.splice( -1, 1 )] drops the last entry. *)
Definition arrayRemove (asserts : bool) (l : list element) (e : element)
    : outcome (list element) :=
  match indexOf l e with
  | Some i => Ok (remove_at l i)
  | None => js_assert asserts false "item not found in Array" ;; Ok (removelast l)
  end.

(** What the container's listeners and its elements see, in order, each with
    the observation [o] of the container's owner made at that moment. *)
Inductive event (Obs : Type) : Type :=
| ElementCreated (e : element) (o : Obs)    (** [elementCreatedEmitter.emit( e )] *)
| ElementDisposed (e : element) (o : Obs)   (** [elementDisposedEmitter.emit( e )] *)
| DisposeCalled (e : element) (o : Obs).    (** [e.dispose()] *)
Arguments ElementCreated {Obs} e o.
Arguments ElementDisposed {Obs} e o.
Arguments DisposeCalled {Obs} e o.

(** The fields of PhetioDynamicElementContainer, plus the effects on the outside
    world: the ids of the elements disposed so far and the event history. *)
Record container (Obs : Type) : Type := mkContainer {
  notificationsDeferred : bool;
  deferredCreations : list element;
  deferredDisposals : list element;
  disposedElements : list nat;
  events : list (event Obs)
}.
Arguments mkContainer {Obs} _ _ _ _ _.
Arguments notificationsDeferred {Obs} _.
Arguments deferredCreations {Obs} _.
Arguments deferredDisposals {Obs} _.
Arguments disposedElements {Obs} _.
Arguments events {Obs} _.

Definition emptyContainer {Obs} : container Obs := mkContainer false [] [] [] [].

Section Container.

(** A container subtype: its state [St] holds the container fields ([getC],
    [setC]); [observe] is what a listener reads of the state. *)
Context {St Obs : Type}.
Context (asserts : bool).
Context (getC : St -> container Obs) (setC : St -> container Obs -> St).
Context (observe : St -> Obs).

Definition logEvent (ev : event Obs) (s : St) : St :=
  let c := getC s in
  setC s (mkContainer (notificationsDeferred c) (deferredCreations c) (deferredDisposals c)
            (disposedElements c) (app (events c) [ev])).

Definition emitCreated (e : element) (s : St) : St := logEvent (ElementCreated e (observe s)) s.
Definition emitDisposed (e : element) (s : St) : St := logEvent (ElementDisposed e (observe s)) s.

(** [element.dispose()] *)
Definition disposeElementObject (e : element) (s : St) : St :=
  let s1 := logEvent (DisposeCalled e (observe s)) s in
  let c := getC s1 in
  setC s1 (mkContainer (notificationsDeferred c) (deferredCreations c) (deferredDisposals c)
             (app (disposedElements c) [el_id e]) (events c)).

Definition setCreations (s : St) (l : list element) : St :=
  let c := getC s in
  setC s (mkContainer (notificationsDeferred c) l (deferredDisposals c) (disposedElements c)
            (events c)).

Definition setDisposals (s : St) (l : list element) : St :=
  let c := getC s in
  setC s (mkContainer (notificationsDeferred c) (deferredCreations c) l (disposedElements c)
            (events c)).

(** [disposeElement( element )] of PhetioDynamicElementContainer. *)
Definition containerDisposeElement (e : element) (s : St) : St :=
  let s1 := disposeElementObject e s in
  if notificationsDeferred (getC s1)
  then setDisposals s1 (app (deferredDisposals (getC s1)) [e])
  else emitDisposed e s1.

(** [notifyElementCreated( createdElement )] *)
Definition notifyElementCreated (e : element) (s : St) : St :=
  if notificationsDeferred (getC s)
  then setCreations s (app (deferredCreations (getC s)) [e])
  else emitCreated e s.

Definition contains (l : list element) (e : element) : bool :=
  match indexOf l e with Some _ => true | None => false end.

(** [notifyElementCreatedWhileDeferred( createdElement )] *)
Definition notifyElementCreatedWhileDeferred (e : element) (s : St) : outcome St :=
  js_assert asserts (notificationsDeferred (getC s))
    "should only be called when notifications are deferred" ;;
  js_assert asserts (contains (deferredCreations (getC s)) e)
    "createdElement should not have been already notified" ;;
  let s1 := emitCreated e s in
  l <- arrayRemove asserts (deferredCreations (getC s1)) e ;;
  Ok (setCreations s1 l).

(** [notifyElementDisposedWhileDeferred( disposedElement )] *)
Definition notifyElementDisposedWhileDeferred (e : element) (s : St) : outcome St :=
  js_assert asserts (notificationsDeferred (getC s))
    "should only be called when notifications are deferred" ;;
  js_assert asserts (contains (deferredDisposals (getC s)) e)
    "disposedElement should not have been already notified" ;;
  let s1 := emitDisposed e s in
  l <- arrayRemove asserts (deferredDisposals (getC s1)) e ;;
  Ok (setDisposals s1 l).

(** [while ( this.deferredCreations.length > 0 ) { ... }], at most [fuel]
    iterations; each iteration removes one entry and listeners, which only
    observe, add none, so the queue's length bounds the loop. *)
Fixpoint flushCreations (fuel : nat) (s : St) : outcome St :=
  match fuel with
  | O => Ok s
  | S f =>
      match deferredCreations (getC s) with
      | [] => Ok s
      | e :: _ => s' <- notifyElementCreatedWhileDeferred e s ;; flushCreations f s'
      end
  end.

Fixpoint flushDisposals (fuel : nat) (s : St) : outcome St :=
  match fuel with
  | O => Ok s
  | S f =>
      match deferredDisposals (getC s) with
      | [] => Ok s
      | e :: _ => s' <- notifyElementDisposedWhileDeferred e s ;; flushDisposals f s'
      end
  end.

(** [setNotificationsDeferred( notificationsDeferred )] *)
Definition setNotificationsDeferred (b : bool) (s : St) : outcome St :=
  js_assert asserts (negb (Bool.eqb b (notificationsDeferred (getC s))))
    "should not be the same as current value" ;;
  s2 <- (if negb b
         then s1 <- flushCreations (List.length (deferredCreations (getC s))) s ;;
              flushDisposals (List.length (deferredDisposals (getC s1))) s1
         else Ok s) ;;
  js_assert asserts (Nat.eqb (List.length (deferredCreations (getC s2))) 0)
    "creations should be clear" ;;
  js_assert asserts (Nat.eqb (List.length (deferredDisposals (getC s2))) 0)
    "disposals should be clear" ;;
  let c := getC s2 in
  Ok (setC s2 (mkContainer b (deferredCreations c) (deferredDisposals c) (disposedElements c)
                 (events c))).

End Container.

(** ** PhetioGroup *)

(** What a listener of a group reads when notified: [countProperty.value] and
    [_array.length]. *)
Definition group_obs : Type := (nat * nat)%type.

Record group : Type := mkGroup {
  gcontainer : container group_obs;
  _array : list element;
  groupElementIndex : nat;
  countProperty : nat;
  nextElementId : nat   (** identities of the objects [createElement] returns *)
}.

Definition group_setC (g : group) (c : container group_obs) : group :=
  mkGroup c (_array g) (groupElementIndex g) (countProperty g) (nextElementId g).

Definition group_observe (g : group) : group_obs := (countProperty g, List.length (_array g)).

Definition set_array (g : group) (a : list element) : group :=
  mkGroup (gcontainer g) a (groupElementIndex g) (countProperty g) (nextElementId g).

Definition set_groupElementIndex (g : group) (i : nat) : group :=
  mkGroup (gcontainer g) (_array g) i (countProperty g) (nextElementId g).

(** [this.countProperty.value = n]: a Property notifies its listeners on a
    change only, and (with assertions) the group's own link asserts that the
    count equals the array's length. *)
Definition setCountProperty (asserts : bool) (g : group) (n : nat) : outcome group :=
  (if Nat.eqb n (countProperty g) then Ok tt
   else js_assert asserts (Nat.eqb n (List.length (_array g)))
          "listener fired and array length differs.") ;;
  Ok (mkGroup (gcontainer g) (_array g) (groupElementIndex g) n (nextElementId g)).

(** [this.createDynamicElement( componentName, ... )]: the object returned by
    the factory [createElement] is new; its DynamicTandem (named from [index])
    is not modelled. *)
Definition groupCreateDynamicElement (index : nat) (g : group) : element * group :=
  (mkElement (nextElementId g) (Some index),
   mkGroup (gcontainer g) (_array g) (groupElementIndex g) (countProperty g)
     (S (nextElementId g))).

(** [createIndexedElement( index, argsForCreateFunction )] *)
Definition createIndexedElement (asserts : bool) (index : nat) (g : group)
    : outcome (group * element) :=
  let '(groupElement, g1) := groupCreateDynamicElement index g in
  let g2 := set_array g1 (app (_array g1) [groupElement]) in
  g3 <- setCountProperty asserts g2 (List.length (_array g2)) ;;
  Ok (notifyElementCreated gcontainer group_setC group_observe groupElement g3, groupElement).

(** [createNextElement()]: [createIndexedElement( this.groupElementIndex++ )] *)
Definition createNextElement (asserts : bool) (g : group) : outcome (group * element) :=
  createIndexedElement asserts (groupElementIndex g)
    (set_groupElementIndex g (S (groupElementIndex g))).

(** [createCorrespondingGroupElement( tandemName )], given the index that
    [getGroupElementIndex( tandemName )] reads from the name. *)
Definition createCorrespondingGroupElement (asserts : bool) (index : nat) (g : group)
    : outcome (group * element) :=
  let g1 := if Nat.eqb (groupElementIndex g) index
            then set_groupElementIndex g (S (groupElementIndex g)) else g in
  createIndexedElement asserts index g1.

(** [PhetioGroupIO.addChildElement( group, componentName, stateObject )], given
    the index read from [componentName]. *)
Definition addChildElement (asserts : bool) (index : nat) (g : group)
    : outcome (group * element) :=
  r <- createIndexedElement asserts index g ;;
  let '(g1, groupElement) := r in
  Ok (set_groupElementIndex g1 (Nat.max (S index) (groupElementIndex g1)), groupElement).

Definition isDisposedElement {Obs} (c : container Obs) (e : element) : bool :=
  existsb (Nat.eqb (el_id e)) (disposedElements c).

(** [disposeElement( element )] of PhetioGroup. *)
Definition groupDisposeElement (asserts : bool) (e : element) (g : group) : outcome group :=
  js_assert asserts (negb (isDisposedElement (gcontainer g) e)) "element already disposed" ;;
  a <- arrayRemove asserts (_array g) e ;;
  let g1 := set_array g a in
  g2 <- setCountProperty asserts g1 (List.length (_array g1)) ;;
  Ok (containerDisposeElement gcontainer group_setC group_observe e g2).

(** [while ( this._array.length > 0 ) { this.disposeElement( this._array[ 0 ] ); }],
    at most [fuel] iterations (each removes one entry). *)
Fixpoint clearLoop (asserts : bool) (fuel : nat) (g : group) : outcome group :=
  match fuel with
  | O => Ok g
  | S f =>
      match _array g with
      | [] => Ok g
      | e :: _ => g' <- groupDisposeElement asserts e g ;; clearLoop asserts f g'
      end
  end.

(** [clear( { resetIndex } )] *)
Definition clear (asserts resetIndex : bool) (g : group) : outcome group :=
  g1 <- clearLoop asserts (List.length (_array g)) g ;;
  Ok (if resetIndex then set_groupElementIndex g1 0 else g1).

Definition groupSetNotificationsDeferred (asserts b : bool) (g : group) : outcome group :=
  setNotificationsDeferred asserts gcontainer group_setC group_observe b g.

(** A newly constructed group. *)
Definition initialGroup : group := mkGroup emptyContainer [] 0 0 0.

(** The group's public operations. *)
Inductive group_op : Type :=
| CreateNextElement
| CreateIndexedElement (index : nat)
| CreateCorrespondingGroupElement (index : nat)
| AddChildElement (index : nat)
| DisposeElement (e : element)
| Clear (resetIndex : bool)
| SetNotificationsDeferred (b : bool).

Definition run_group_op (asserts : bool) (op : group_op) (g : group) : outcome group :=
  match op with
  | CreateNextElement => r <- createNextElement asserts g ;; Ok (fst r)
  | CreateIndexedElement i => r <- createIndexedElement asserts i g ;; Ok (fst r)
  | CreateCorrespondingGroupElement i =>
      r <- createCorrespondingGroupElement asserts i g ;; Ok (fst r)
  | AddChildElement i => r <- addChildElement asserts i g ;; Ok (fst r)
  | DisposeElement e => groupDisposeElement asserts e g
  | Clear resetIndex => clear asserts resetIndex g
  | SetNotificationsDeferred b => groupSetNotificationsDeferred asserts b g
  end.

Fixpoint run_group_ops (asserts : bool) (ops : list group_op) (g : group) : outcome group :=
  match ops with
  | [] => Ok g
  | op :: rest => g' <- run_group_op asserts op g ;; run_group_ops asserts rest g'
  end.

(** The notifications a flush emits for a queue, each with the observation [o]. *)
Definition created_events {Obs} (o : Obs) (l : list element) : list (event Obs) :=
  map (fun e => ElementCreated e o) l.

Definition disposed_events {Obs} (o : Obs) (l : list element) : list (event Obs) :=
  map (fun e => ElementDisposed e o) l.

(** Deferring notifications, creating three elements and disposing the second. *)
Definition deferredScenarioOps : list group_op :=
  [SetNotificationsDeferred true; CreateNextElement; CreateNextElement; CreateNextElement;
   DisposeElement (mkElement 1 (Some 1%nat))].

Definition deferredScenario : group :=
  match run_group_ops true deferredScenarioOps initialGroup with
  | Ok g => g
  | Throw _ => initialGroup
  end.

(** ** PhetioCapsule *)

Record capsule : Type := mkCapsule {
  ccontainer : container unit;
  capsuleElement : option element;   (** [this.element] *)
  nextCapsuleElementId : nat
}.

Definition capsule_setC (cap : capsule) (c : container unit) : capsule :=
  mkCapsule c (capsuleElement cap) (nextCapsuleElementId cap).

Definition capsule_observe (cap : capsule) : unit := tt.

(** [create( argsForCreateFunction )]: the new element replaces [this.element]. *)
Definition create (cap : capsule) : capsule * element :=
  let e := mkElement (nextCapsuleElementId cap) None in
  let cap1 := mkCapsule (ccontainer cap) (Some e) (S (nextCapsuleElementId cap)) in
  (notifyElementCreated ccontainer capsule_setC capsule_observe e cap1, e).

(** [getElement()] *)
Definition getElement (cap : capsule) : capsule * element :=
  match capsuleElement cap with
  | None => create cap
  | Some e => (cap, e)
  end.

(** [disposeElement()] of PhetioCapsule; on an empty capsule, without
    assertions, [super.disposeElement( null )] fails on [null.dispose()]. *)
Definition capsuleDisposeElement (asserts : bool) (cap : capsule) : outcome capsule :=
  match capsuleElement cap with
  | None =>
      js_assert asserts false "cannot dispose if element is not defined" ;;
      Throw (TypeError "Cannot read property dispose of null")
  | Some e =>
      let cap1 := containerDisposeElement ccontainer capsule_setC capsule_observe e cap in
      Ok (mkCapsule (ccontainer cap1) None (nextCapsuleElementId cap1))
  end.

(** [clear()] *)
Definition capsuleClear (asserts : bool) (cap : capsule) : outcome capsule :=
  match capsuleElement cap with
  | Some _ => capsuleDisposeElement asserts cap
  | None => Ok cap
  end.

Definition initialCapsule : capsule := mkCapsule emptyContainer None 0.

Inductive capsule_op : Type :=
| Create
| GetElement
| CapsuleClear
| CapsuleDisposeElement.

Definition run_capsule_op (asserts : bool) (op : capsule_op) (cap : capsule)
    : outcome capsule :=
  match op with
  | Create => Ok (fst (create cap))
  | GetElement => Ok (fst (getElement cap))
  | CapsuleClear => capsuleClear asserts cap
  | CapsuleDisposeElement => capsuleDisposeElement asserts cap
  end.

Fixpoint run_capsule_ops (asserts : bool) (ops : list capsule_op) (cap : capsule)
    : outcome capsule :=
  match ops with
  | [] => Ok cap
  | op :: rest => cap' <- run_capsule_op asserts op cap ;; run_capsule_ops asserts rest cap'
  end.

(** The elements created by the capsule and not disposed yet. *)
Definition liveElementIds (cap : capsule) : list nat :=
  filter (fun i => negb (existsb (Nat.eqb i) (disposedElements (ccontainer cap))))
    (seq 0 (nextCapsuleElementId cap)).

(** The observation an event carries. *)
Definition event_obs {Obs} (ev : event Obs) : Obs :=
  match ev with
  | ElementCreated _ o | ElementDisposed _ o | DisposeCalled _ o => o
  end.

(** [s'] differs from [s] in its container fields only, and the events added
    all carry the observation of [s]. *)
Definition container_update {St Obs} (getC : St -> container Obs)
    (setC : St -> container Obs -> St) (observe : St -> Obs) (s s' : St) : Prop :=
  exists c extra,
    s' = setC s c /\ events c = app (events (getC s)) extra /\
    Forall (fun ev => event_obs ev = observe s) extra.

(** What every listener of a group must see: [countProperty.value] equal to
    [_array.length]; and the group itself agreeing. *)
Definition group_count_consistent (g : group) : Prop :=
  countProperty g = List.length (_array g) /\
  Forall (fun ev => fst (event_obs ev) = snd (event_obs ev)) (events (gcontainer g)).

(** A new group after [n] calls of [createNextElement] (see the proofs). *)
Definition groupAfterCreations (n : nat) : group :=
  mkGroup
    (mkContainer false [] [] []
       (map (fun i => ElementCreated (mkElement i (Some i)) (S i, S i)) (seq 0 n)))
    (map (fun i => mkElement i (Some i)) (seq 0 n)) n n n.

(** The ids of the element in the capsule's slot. *)
Definition slotElementIds (cap : capsule) : list nat :=
  match capsuleElement cap with Some e => [el_id e] | None => [] end.

(** The live elements are exactly the slot's element, and only elements already
    created have been disposed. *)
Definition capsule_inv (cap : capsule) : Prop :=
  liveElementIds cap = slotElementIds cap /\
  Forall (fun i => (i < nextCapsuleElementId cap)%nat) (disposedElements (ccontainer cap)).

End Dynamic.

(** ** PhetioAPIValidation: the overrides file checked against the baseline *)

Module APIValidation.

(** [DynamicTandem.DYNAMIC_ARCHETYPE_NAME] *)
Definition DYNAMIC_ARCHETYPE_NAME : string := "archetype".

Definition RULE3 : string :=
  "3. Any schema entries in the overrides file must exist in the baseline file.".
Definition RULE4 : string :=
  "4. Any schema entries in the overrides file must be different from its baseline counterpart.".
Definition RULE8 : string :=
  "8. Any schema entries in the overrides file must be different from its baseline counterpart.".

Definition newline : string := String (ascii_of_nat 10) EmptyString.

(** The message of [assertAPIError]: [phetioID] is truthy unless empty. *)
Definition mismatchMessage (phetioID ruleInViolation : string) : string :=
  if String.eqb phetioID "" then ruleInViolation
  else phetioID ++ ":  " ++ ruleInViolation.

Definition api_error_msg (phetioID ruleInViolation : string) : string :=
  "PhET-iO API error:" ++ newline ++ mismatchMessage phetioID ruleInViolation.

(** The outcome of [assertAPIError]: [assert && assert( false, ... )].  The
    [console.log] of the error data before it changes no outcome; it is
    modelled, with the log, by [APIValidationOps.assertAPIError]. *)
Definition assertAPIError (asserts : bool) (phetioID ruleInViolation : string) : outcome unit :=
  js_assert asserts false (api_error_msg phetioID ruleInViolation).

Definition missing_msg (phetioID : string) : string :=
  "phetioID missing from the baseline that was not an archetype: " ++ phetioID.

(** [phetioID.indexOf( DynamicTandem.DYNAMIC_ARCHETYPE_NAME ) >= 0] *)
Definition isArchetype (phetioID : string) : bool :=
  match String.index 0 DYNAMIC_ARCHETYPE_NAME phetioID with Some _ => true | None => false end.

(** [entireBaseline.hasOwnProperty( phetioID )] on the baseline object. *)
Definition inBaseline (entireBaseline : list (string * jsval)) (phetioID : string) : bool :=
  existsb (String.eqb phetioID) (map fst entireBaseline).

(** The body of [for ( const metadataKey in override )]. *)
Fixpoint checkMetadataKeys (asserts : bool) (phetioID : string) (override baseline : jsval)
    (keys : list string) : outcome unit :=
  match keys with
  | [] => Ok tt
  | metadataKey :: rest =>
      has <- has_own baseline metadataKey ;;
      (if negb has then assertAPIError asserts phetioID RULE8 else Ok tt) ;;
      ov <- get_prop override metadataKey ;;
      bv <- get_prop baseline metadataKey ;;
      (if strict_eq ov bv then assertAPIError asserts phetioID RULE8 else Ok tt) ;;
      checkMetadataKeys asserts phetioID override baseline rest
  end.

(** One iteration of [for ( const phetioID in phetioElementsOverrides )]. *)
Definition validateOverride (asserts createArchetypes : bool)
    (entireBaseline : list (string * jsval)) (phetioID : string) (override : jsval) : outcome unit :=
  if negb createArchetypes && negb (inBaseline entireBaseline phetioID) then
    js_assert asserts (isArchetype phetioID) (missing_msg phetioID)
  else if negb (inBaseline entireBaseline phetioID) then
    assertAPIError asserts phetioID RULE3
  else
    let baseline := match assoc_lookup phetioID entireBaseline with Some b => b | None => JUndef end in
    keys <- object_keys override ;;
    (if Nat.eqb (List.length keys) 0 then assertAPIError asserts phetioID RULE4 else Ok tt) ;;
    checkMetadataKeys asserts phetioID override baseline keys.

(** [validateOverridesFile]: the overrides object as its entries in key order. *)
Fixpoint validateOverridesFile (asserts createArchetypes : bool)
    (entireBaseline : list (string * jsval)) (overrides : list (string * jsval)) : outcome unit :=
  match overrides with
  | [] => Ok tt
  | (phetioID, override) :: rest =>
      validateOverride asserts createArchetypes entireBaseline phetioID override ;;
      validateOverridesFile asserts createArchetypes entireBaseline rest
  end.

(** [onSimStarted]: [this.enabled = assert && Tandem.VALIDATION]. *)
Definition onSimStarted (asserts VALIDATION allScreensCreated createArchetypes : bool)
    (entireBaseline overrides : list (string * jsval)) : outcome unit :=
  if (asserts && VALIDATION) && allScreensCreated
  then validateOverridesFile asserts createArchetypes entireBaseline overrides
  else Ok tt.

End APIValidation.

(** ** Tandem: disposal, archetypal phetioIDs and group tandems *)

Module TandemOps.
Import Tandem.

(** [delete obj[ key ]] on a string-keyed object literal. *)
Fixpoint assoc_delete {A} (k : string) (l : list (string * A)) : list (string * A) :=
  match l with
  | [] => []
  | (k', v) :: rest => if String.eqb k k' then assoc_delete k rest else (k', v) :: assoc_delete k rest
  end.

Definition with_children (t : tandem) (cs : list (string * nat)) : tandem :=
  {| parentTandem := parentTandem t; name := name t; phetioID := phetioID t; children := cs;
     required := required t; supplied := supplied t; isDisposed := isDisposed t; kind := kind t |}.

Definition with_disposed (t : tandem) : tandem :=
  {| parentTandem := parentTandem t; name := name t; phetioID := phetioID t; children := children t;
     required := required t; supplied := supplied t; isDisposed := true; kind := kind t |}.

(** [removeChild( childName )] on the tandem [p]. *)
Definition removeChild (asserts : bool) (h : heap) (p : nat) (childName : string) : outcome heap :=
  parent <- lookup h p ;;
  (if asserts then
     has <- hasChildJS parent childName ;;
     js_assert asserts has "Assertion failed"
   else Ok tt) ;;
  Ok (replace_nth h p (with_children parent (assoc_delete childName (children parent)))).

(** [dispose()] on the tandem [r]: [this.parentTandem.removeChild( this.name )]
    fails on a root tandem, whose parent is null. *)
Definition dispose (asserts : bool) (h : heap) (r : nat) : outcome heap :=
  t <- lookup h r ;;
  js_assert asserts (negb (isDisposed t)) "already disposed" ;;
  match parentTandem t with
  | None => Throw (TypeError "Cannot read property removeChild of null")
  | Some p =>
      h1 <- removeChild asserts h p (name t) ;;
      t1 <- lookup h1 r ;;
      Ok (replace_nth h1 r (with_disposed t1))
  end.

(** [getArchetypalPhetioID()], dispatching on the tandem's class (Tandem or
    DynamicTandem), recursing through [parentTandem]; [fuel] bounds the depth. *)
Fixpoint archetypalPhetioID (asserts : bool) (fuel : nat) (h : heap) (r : nat) : outcome string :=
  match fuel with
  | O => Throw (Error "parent chain too long")
  | S f =>
      t <- lookup h r ;;
      match kind t with
      | DynamicTandem =>
          js_assert asserts (match parentTandem t with Some _ => true | None => false end)
            "Group elements must be in a Group" ;;
          match parentTandem t with
          | None => Throw (TypeError "Cannot read property getArchetypalPhetioID of null")
          | Some p =>
              a <- archetypalPhetioID asserts f h p ;;
              Ok (PhetioIDUtils_append a APIValidation.DYNAMIC_ARCHETYPE_NAME)
          end
      | _ =>
          match parentTandem t with
          | Some p => a <- archetypalPhetioID asserts f h p ;; Ok (PhetioIDUtils_append a (name t))
          | None => Ok (phetioID t)
          end
      end
  end.

(** A tandem is allocated after its parent, so a parent chain from [r] visits at
    most [r + 1] tandems. *)
Definition getArchetypalPhetioID (asserts : bool) (h : heap) (r : nat) : outcome string :=
  archetypalPhetioID asserts (S r) h r.

(** [hasAncestor( ancestor )] on the tandem [r], with [ancestor] the tandem
    [a] ([===] compares tandems by identity, here their index); on a root,
    [this.parentTandem && ...] is [null], which callers read as false.  [fuel]
    bounds the depth of the recursion. *)
Fixpoint hasAncestorAux (fuel : nat) (h : heap) (r a : nat) : outcome bool :=
  match fuel with
  | O => Throw (Error "parent chain too long")
  | S f =>
      t <- lookup h r ;;
      match parentTandem t with
      | None => Ok false
      | Some p => if Nat.eqb p a then Ok true else hasAncestorAux f h p a
      end
  end.

Definition hasAncestor (h : heap) (r a : nat) : outcome bool := hasAncestorAux (S r) h r a.

(** The properties of Object.prototype (ECMAScript with its Annex B), which the
    object literal [this.children] inherits; each is a function, except
    [__proto__], whose getter returns Object.prototype: all are truthy. *)
Definition OBJECT_PROTOTYPE_KEYS : list string :=
  ["constructor"; "hasOwnProperty"; "isPrototypeOf"; "propertyIsEnumerable";
   "toLocaleString"; "toString"; "valueOf"; "__defineGetter__"; "__defineSetter__";
   "__lookupGetter__"; "__lookupSetter__"; "__proto__"].

(** A value [this.children[ name ]] can hold: a child tandem, or a member
    inherited from Object.prototype. *)
Inductive child_value : Type :=
| ChildTandem (r : nat)
| InheritedMember (key : string).

(** [createGroupTandem( name )]: [this.children[ name ]] if it is truthy (an own
    child, or an inherited Object.prototype member), otherwise [new GroupTandem(
    this, name )], whose [super( parentTandem, name )] passes no options, so
    [required] and [supplied] default to true.  A GroupTandem uses Tandem's term
    regex; its [groupMemberIndex] is not needed here. *)
Definition createGroupTandem (asserts : bool) (h : heap) (p : nat) (childName : string)
    : outcome (heap * child_value) :=
  parent <- lookup h p ;;
  match assoc_lookup childName (children parent) with
  | Some c => Ok (h, ChildTandem c)
  | None =>
      if existsb (String.eqb childName) OBJECT_PROTOTYPE_KEYS
      then Ok (h, InheritedMember childName)
      else r <- newChildTandem asserts PlainTandem h p childName true true ;;
           Ok (fst r, ChildTandem (snd r))
  end.

(** The shape the Tandem constructor gives the heap: a root's phetioID is its
    name; a child is allocated after its parent and its phetioID is the parent's
    phetioID appended with its name. *)
Definition tandem_wf (h : heap) : Prop :=
  forall i t, nth_error h i = Some t ->
    match parentTandem t with
    | None => phetioID t = name t
    | Some p => (p < i)%nat /\
                exists pt, nth_error h p = Some pt /\
                           phetioID t = PhetioIDUtils_append (phetioID pt) (name t)
    end.

(** No tandem of the heap is a DynamicTandem. *)
Definition static_tree (h : heap) : Prop :=
  Forall (fun t => kind t <> DynamicTandem) h.

(** The tandem part of [createDynamicElement( componentName, ... )] on a
    container whose tandem is [p]: a new DynamicTandem with the container
    tandem's [getExtendedOptions()], or, when the name is taken, the existing
    child through [createTandem], asserted to be a DynamicTandem. *)
Definition createDynamicElementTandem (asserts VALIDATION : bool) (h : heap) (p : nat)
    (componentName : string) : outcome (heap * nat) :=
  parent <- lookup h p ;;
  has <- hasChildJS parent componentName ;;
  if negb has then
    let '(req, sup) := getExtendedOptions parent (mkOptions None None) in
    newChildTandem asserts DynamicTandem h p componentName req sup
  else
    r <- createTandem asserts VALIDATION h p componentName
           (mkOptions (Some (required parent)) (Some (supplied parent))) ;;
    t <- lookup (fst r) (snd r) ;;
    js_assert asserts (match kind t with DynamicTandem => true | _ => false end)
      "createdObjectTandem should be an instance of DynamicTandem" ;;
    Ok r.

(** [h1] keeps every tandem of [h] at its place with the same parent, name,
    phetioID and class (children and flags may differ). *)
Definition same_shape (h h1 : heap) : Prop :=
  forall i t, nth_error h i = Some t ->
    exists t1, nth_error h1 i = Some t1 /\ parentTandem t1 = parentTandem t /\
               name t1 = name t /\ phetioID t1 = phetioID t /\ kind t1 = kind t.

(** Scenarios on the tandem tree of [sim_heap]: a child [x] of [sim.test]; a
    dynamic element [particle_0] under [sim.test]; [sim.test] disposed. *)
Definition sim_x : heap * nat :=
  match createTandem true true sim_heap 1 "x" (flags true true) with
  | Ok r => r
  | Throw _ => (sim_heap, 0%nat)
  end.

Definition sim_particle : heap * nat :=
  match createDynamicElementTandem true true sim_heap 1 "particle_0" with
  | Ok r => r
  | Throw _ => (sim_heap, 0%nat)
  end.

Definition sim_test_disposed : heap :=
  match dispose true sim_heap 1 with Ok h => h | Throw _ => sim_heap end.

End TandemOps.

(** ** Removing PhetioObjects (Tandem.js) *)

Module RegistrationOps.

Import Registration.

(** JS object identity ([===]) of PhetioObjects. *)
Definition same_object (a b : phetio_object) : bool := Nat.eqb (po_id a) (po_id b).

(** [bufferedPhetioObjects.indexOf( phetioObject )] *)
Fixpoint indexOfObject (l : list phetio_object) (o : phetio_object) : option nat :=
  match l with
  | [] => None
  | x :: rest =>
      if same_object x o then Some 0%nat
      else match indexOfObject rest o with Some i => Some (S i) | None => None end
  end.

(** Modelled from the spec: phet-core's [arrayRemove], as [Dynamic.arrayRemove],
    on the array of buffered PhetioObjects. *)
Definition arrayRemoveObject (asserts : bool) (l : list phetio_object) (o : phetio_object)
    : outcome (list phetio_object) :=
  match indexOfObject l o with
  | Some i => Ok (Dynamic.remove_at l i)
  | None => js_assert asserts false "item not found in Array" ;; Ok (removelast l)
  end.

(** The module state of Tandem.js, the calls [listener.removePhetioObject( o )]
    made so far, and the tandem tree. *)
Record world : Type := mkWorld {
  reg : registry;
  removals : list (listener * phetio_object);
  tandems : Tandem.heap
}.

(** [tandem.removePhetioObject( phetioObject )], where [tandem] is the
    object's tandem, at index [r] of the tree; its [required] and [supplied]
    flags are [po_required] and [po_supplied]. *)
Definition removePhetioObject (asserts PHET_IO_ENABLED : bool) (o : phetio_object) (r : nat)
    (w : world) : outcome world :=
  if negb (po_required o) && negb (po_supplied o) then Ok w
  else
    w1 <- (if PHET_IO_ENABLED then
             if negb (launched (reg w)) then
               js_assert asserts
                 (match indexOfObject (bufferedPhetioObjects (reg w)) o with
                  | Some _ => true | None => false end) "should contain item" ;;
               b <- arrayRemoveObject asserts (bufferedPhetioObjects (reg w)) o ;;
               Ok (mkWorld (set_buffer (reg w) b) (removals w) (tandems w))
             else
               Ok (mkWorld (reg w)
                     (app (removals w) (map (fun l => (l, o)) (phetioObjectListeners (reg w))))
                     (tandems w))
           else Ok w) ;;
    h1 <- TandemOps.dispose asserts (tandems w1) r ;;
    Ok (mkWorld (reg w1) (removals w1) h1).

End RegistrationOps.

(** ** Notifications of clearing a group *)

Module DynamicOps.

Import Dynamic.

(** What [clear()] makes happen for the elements [l] of a group whose
    notifications are not deferred: for each element in array order, its
    [dispose()] and then [elementDisposedEmitter.emit], both observing the count
    and the length of the array once the element has been removed. *)
Fixpoint clear_events (l : list element) : list (event group_obs) :=
  match l with
  | [] => []
  | e :: rest =>
      DisposeCalled e (List.length rest, List.length rest)
      :: ElementDisposed e (List.length rest, List.length rest) :: clear_events rest
  end.

End DynamicOps.

(** ** Checking dynamic elements against their archetype (phetioAPIValidation.js) *)

Module APIValidationOps.

Import APIValidation.

(** [KEYS_TO_CHECK], the API-tracked metadata keys. *)
Definition KEYS_TO_CHECK : list string :=
  ["phetioDynamicElement"; "phetioEventType"; "phetioIsArchetype"; "phetioPlayback";
   "phetioReadOnly"; "phetioState"; "phetioTypeName"].

Definition RULE5 : string := "5. Dynamic element metadata should match the archetype in the API.".

(** The [apiErrorObject] passed to [assertAPIError]. *)
Record apiErrorObject : Type := mkAPIErrorObject {
  errPhetioID : string;
  errRuleInViolation : string;
  errSource : string;
  errMessage : string
}.

(** Computations that write to the console: the error data logged so far is
    threaded through, and kept when an assertion fails. *)
Definition console (A : Type) : Type := list apiErrorObject -> list apiErrorObject * outcome A.

Definition cret {A} (a : A) : console A := fun log => (log, Ok a).

Definition cbind {A B} (m : console A) (k : A -> console B) : console B :=
  fun log => let '(log', r) := m log in
             match r with Ok a => k a log' | Throw e => (log', Throw e) end.

Definition clift {A} (o : outcome A) : console A := fun log => (log, o).

(** [console.log( 'error data:', apiErrorObject )] *)
Definition console_log (e : apiErrorObject) : console unit := fun log => (app log [e], Ok tt).

(** [assertAPIError( apiErrorObject )]: the error data is logged whether or not
    assertions are enabled, then [assert && assert( false, ... )]. *)
Definition assertAPIError (asserts : bool) (e : apiErrorObject) : console unit :=
  cbind (console_log e) (fun _ =>
    clift (APIValidation.assertAPIError asserts (errPhetioID e) (errRuleInViolation e))).

(** The body of [KEYS_TO_CHECK.forEach( key => { ... } )]. *)
Fixpoint checkKeys (asserts : bool) (phetioID source : string)
    (archetypeMetadata actualMetadata : jsval) (keys : list string) : console unit :=
  match keys with
  | [] => cret tt
  | key :: rest =>
      cbind
        (if negb (String.eqb key "phetioDynamicElement") &&
            negb (String.eqb key "phetioArchetypePhetioID") &&
            negb (String.eqb key "phetioIsArchetype")
         then cbind (clift (get_prop archetypeMetadata key)) (fun a =>
              cbind (clift (get_prop actualMetadata key)) (fun b =>
              if negb (strict_eq a b)
              then assertAPIError asserts
                     (mkAPIErrorObject phetioID RULE5 source ("mismatched metadata: " ++ key))
              else cret tt))
         else cret tt)
        (fun _ => checkKeys asserts phetioID source archetypeMetadata actualMetadata rest)
  end.

(** [checkDynamicInstanceAgainstArchetype( phetioAPIValidation, phetioObject,
    archetypeMetadata, source )], given the element's [tandem.phetioID] and
    [getMetadata()]. *)
Definition checkDynamicInstanceAgainstArchetype (asserts : bool) (phetioID source : string)
    (actualMetadata archetypeMetadata : jsval) : console unit :=
  checkKeys asserts phetioID source archetypeMetadata actualMetadata KEYS_TO_CHECK.

End APIValidationOps.

(** ** Properties of the IO Type system *)

(** C1 (code_bug) — the closed-world check of a composite schema never runs: for
    [TestIO] (stateSchema [{ a: NumberIO, b: StringIO }], supertype ObjectIO by
    default) the state object [{ a: 1, b: 'hi', c: true }] with the undeclared key
    [c] is accepted, with or without assertions, exactly like [{ a: 1, b: 'hi' }]. *)
Theorem TestIO_accepts_undeclared_key :
  forall asserts toAssert : bool,
    isStateObjectValid asserts TestIO abc_state toAssert [] [] = Ok true /\
    isStateObjectValid asserts TestIO ab_state toAssert [] [] = Ok true.
Proof.
  intros asserts toAssert; destruct asserts, toAssert; split; vm_compute; reflexivity.
Qed.

(** C7 — NumberIO's [toStateObject] maps the infinities to their sentinel strings
    and finite numbers to themselves, [fromStateObject] inverts it, and
    [toStateObject( 5 ) === 5]. *)
Theorem NumberIO_infinity_roundtrip :
  (forall asserts, toStateObject asserts NumberIO (JNum NPosInf) = Ok (JStr "POSITIVE_INFINITY")) /\
  (forall asserts, toStateObject asserts NumberIO (JNum NNegInf) = Ok (JStr "NEGATIVE_INFINITY")) /\
  (forall asserts q, toStateObject asserts NumberIO (JNum (NFin q)) = Ok (JNum (NFin q))) /\
  (forall asserts n so, toStateObject asserts NumberIO (JNum n) = Ok so ->
                        fromStateObject NumberIO so = JNum n) /\
  (forall asserts so, toStateObject asserts NumberIO (JNum NPosInf) = Ok so ->
                      strict_eq (fromStateObject NumberIO so) (JNum NPosInf) = true) /\
  (forall asserts so, toStateObject asserts NumberIO (JNum NNegInf) = Ok so ->
                      strict_eq (fromStateObject NumberIO so) (JNum NNegInf) = true) /\
  (forall asserts, exists so, toStateObject asserts NumberIO (jnum 5) = Ok so /\
                              strict_eq so (jnum 5) = true).
Proof.
  split; [intros []; reflexivity|].
  split; [intros []; reflexivity|].
  split; [intros [] q; reflexivity|].
  split; [intros [] [q| | | ] so H; cbn in H; inversion H; reflexivity|].
  split; [intros [] so H; cbn in H; inversion H; reflexivity|].
  split; [intros [] so H; cbn in H; inversion H; reflexivity|].
  intros []; eexists; split; reflexivity.
Qed.

(** C10 — NumberIO's state schema accepts exactly the two sentinel strings and
    the non-NaN numbers; [toStateObject] passes NaN through unchanged (the wrapper
    returns it when assertions are off) although NaN fails the type's own schema
    validation (with assertions on, the wrapper's validation rejects it). *)
Theorem NumberIO_schema_rejects_NaN :
  (forall asserts v,
     isStateObjectValid asserts NumberIO v false [] [] = Ok true <->
     (v = JStr "POSITIVE_INFINITY" \/ v = JStr "NEGATIVE_INFINITY" \/
      exists n, v = JNum n /\ n <> NNaN)) /\
  (forall asserts v, exists b, isStateObjectValid asserts NumberIO v false [] [] = Ok b) /\
  NumberIO_toStateObject (JNum NNaN) = JNum NNaN /\
  toStateObject false NumberIO (JNum NNaN) = Ok (JNum NNaN) /\
  (forall asserts, isStateObjectValid asserts NumberIO (JNum NNaN) false [] [] = Ok false) /\
  (exists msg, toStateObject true NumberIO (JNum NNaN) = Throw (AssertionError msg)).
Proof.
  split; [|split; [|split; [reflexivity|split; [reflexivity|split]]]].
  - intros asserts v.
    change (isStateObjectValid asserts NumberIO v false [] [])
      with (Ok (NumberIO_isValidValue v) : outcome bool).
    unfold NumberIO_isValidValue.
    split.
    + intros H. inversion H as [H1]. clear H.
      destruct v as [| |b|n|s|l|fs]; cbn in H1; try discriminate.
      * right; right. exists n. split; [reflexivity|].
        destruct n; cbn in H1; congruence.
      * apply Bool.orb_true_iff in H1 as [H1|H1];
          [apply Bool.orb_true_iff in H1 as [H1|H1]|].
        -- left. apply String.eqb_eq in H1. subst; reflexivity.
        -- right; left. apply String.eqb_eq in H1. subst; reflexivity.
        -- discriminate.
    + intros [H|[H|[n [H Hn]]]]; subst; try reflexivity.
      destruct n; cbn; congruence.
  - intros asserts v. eexists. reflexivity.
  - intros asserts. reflexivity.
  - eexists. reflexivity.
Qed.

(** ** Properties of the tandem tree *)

Lemma js_assert_ok (asserts cond : bool) (msg : string) :
  js_assert asserts cond msg = Ok tt -> asserts = true -> cond = true.
Proof. unfold js_assert; intros H ->; destruct cond; simpl in *; congruence. Qed.

Lemma js_assert_true_false (cond : bool) (msg : string) :
  cond = false -> js_assert true cond msg = Throw (AssertionError msg).
Proof. intros ->; reflexivity. Qed.

Lemma js_assert_pass (asserts cond : bool) (msg : string) :
  (asserts = true -> cond = true) -> js_assert asserts cond msg = Ok tt.
Proof.
  unfold js_assert; intros H; destruct asserts; simpl; [rewrite H by reflexivity|]; reflexivity.
Qed.

Lemma bind_ok_inv {A B} (c : outcome A) (k : A -> outcome B) (b : B) :
  bind c k = Ok b -> exists a, c = Ok a /\ k a = Ok b.
Proof. destruct c as [a|e]; simpl; [eauto | discriminate]. Qed.

Lemma replace_nth_length {A} (l : list A) i x :
  List.length (Tandem.replace_nth l i x) = List.length l.
Proof. revert i; induction l as [|y l IH]; intros [|i]; simpl; auto. Qed.

Lemma replace_nth_same {A} (l : list A) i x :
  (i < List.length l)%nat -> nth_error (Tandem.replace_nth l i x) i = Some x.
Proof.
  revert i; induction l as [|y l IH]; intros [|i] H; simpl in *; try lia; auto.
  apply IH; lia.
Qed.

Lemma replace_nth_other {A} (l : list A) i j x :
  (i <> j)%nat -> nth_error (Tandem.replace_nth l i x) j = nth_error l j.
Proof.
  revert i j; induction l as [|y l IH]; intros [|i] [|j] H; simpl; auto; try congruence.
Qed.

Lemma assoc_lookup_set_same {A} (k : string) (v : A) l :
  assoc_lookup k (Tandem.assoc_set k v l) = Some v.
Proof.
  induction l as [|[k' v'] l IH]; simpl.
  - rewrite String.eqb_refl; reflexivity.
  - destruct (String.eqb k k') eqn:E; simpl; [rewrite String.eqb_refl | rewrite E]; auto.
Qed.

Lemma lookup_ok_lt (h : Tandem.heap) r t : Tandem.lookup h r = Ok t -> (r < List.length h)%nat.
Proof.
  unfold Tandem.lookup; intros H; destruct (nth_error h r) eqn:E; [|discriminate].
  apply nth_error_Some; congruence.
Qed.

Lemma assoc_lookup_set_other {A} (k k' : string) (v : A) l :
  k' <> k -> assoc_lookup k' (Tandem.assoc_set k v l) = assoc_lookup k' l.
Proof.
  intros Hne. induction l as [|[k0 v0] l IH]; simpl.
  - destruct (String.eqb k' k) eqn:E; [apply String.eqb_eq in E; congruence|reflexivity].
  - destruct (String.eqb k k0) eqn:E0; simpl.
    + apply String.eqb_eq in E0; subst k0.
      destruct (String.eqb k' k) eqn:E; [apply String.eqb_eq in E; congruence|reflexivity].
    + rewrite IH. reflexivity.
Qed.

(** What a successful [createTandem] leaves behind: the parent (same class and
    flags) names the returned child under [childName], and, with assertions on,
    the child carries the requested flags; the parent had no child named
    [hasOwnProperty], and still has none unless [childName] is that name. *)
Lemma createTandem_post asserts VALIDATION h p childName o h1 c :
  Tandem.createTandem asserts VALIDATION h p childName o = Ok (h1, c) ->
  exists parent parent1 child,
    Tandem.lookup h p = Ok parent /\ Tandem.lookup h1 p = Ok parent1 /\
    Tandem.kind parent1 = Tandem.kind parent /\
    Tandem.required parent1 = Tandem.required parent /\
    Tandem.supplied parent1 = Tandem.supplied parent /\
    Tandem.rootCreateTandemCheck asserts VALIDATION (Tandem.kind parent) childName = Ok tt /\
    assoc_lookup childName (Tandem.children parent1) = Some c /\
    Tandem.lookup h1 c = Ok child /\
    (asserts = true ->
     (Tandem.required child, Tandem.supplied child) = Tandem.getExtendedOptions parent o) /\
    Tandem.hasChild parent "hasOwnProperty" = false /\
    (childName <> "hasOwnProperty" -> Tandem.hasChild parent1 "hasOwnProperty" = false).
Proof.
  unfold Tandem.createTandem; intros H.
  apply bind_ok_inv in H as [parent [Hp H]].
  apply bind_ok_inv in H as [[] [Hroot H]].
  destruct (Tandem.getExtendedOptions parent o) as [req sup] eqn:Eopt.
  apply bind_ok_inv in H as [has [Hhas H]].
  unfold Tandem.hasChildJS in Hhas.
  destruct (Tandem.hasChild parent "hasOwnProperty") eqn:Hhop; [discriminate|].
  injection Hhas as <-.
  unfold Tandem.hasChild at 1 in H.
  destruct (assoc_lookup childName (Tandem.children parent)) as [c0|] eqn:Ec.
  - apply bind_ok_inv in H as [child [Hc H]].
    apply bind_ok_inv in H as [[] [Ha1 H]].
    apply bind_ok_inv in H as [[] [Ha2 H]].
    injection H as <- <-.
    exists parent, parent, child; repeat split; auto.
    intros Ha. apply js_assert_ok in Ha1; apply js_assert_ok in Ha2; auto.
    apply Bool.eqb_prop in Ha1; apply Bool.eqb_prop in Ha2; congruence.
  - unfold Tandem.newChildTandem in H.
    apply bind_ok_inv in H as [[] [_ H]].
    apply bind_ok_inv in H as [[] [_ H]].
    rewrite Hp in H; simpl in H.
    apply bind_ok_inv in H as [[] [_ H]].
    apply bind_ok_inv in H as [[] [_ H]].
    injection H as <- <-.
    pose proof (lookup_ok_lt _ _ _ Hp) as Hlt.
    exists parent; eexists; eexists; split; [exact Hp|]; split.
    { unfold Tandem.lookup; rewrite replace_nth_same; [reflexivity|].
      rewrite length_app; simpl; lia. }
    repeat split; auto.
    + simpl. apply assoc_lookup_set_same.
    + unfold Tandem.lookup; rewrite replace_nth_other by lia.
      rewrite nth_error_app2 by lia; rewrite Nat.sub_diag; reflexivity.
    + intros _; simpl; rewrite Eopt; reflexivity.
    + intros Hne. unfold Tandem.hasChild. cbn [Tandem.children].
      rewrite assoc_lookup_set_other by (intros E; apply Hne; symmetry; exact E).
      exact Hhop.
Qed.

Lemma getExtendedOptions_flags (t t' : Tandem.tandem) o :
  Tandem.required t' = Tandem.required t -> Tandem.supplied t' = Tandem.supplied t ->
  Tandem.getExtendedOptions t' o = Tandem.getExtendedOptions t o.
Proof. unfold Tandem.getExtendedOptions; intros -> ->; reflexivity. Qed.

(** C3: [createTandem] is not idempotent for the name [hasOwnProperty], which
    the term regex admits: under [sim.test], a first
    [createTandem( 'hasOwnProperty', options )] succeeds and stores the child as
    the own property [children.hasOwnProperty]; a second identical call then
    fails with a TypeError in [hasChild], with or without assertions.  For every
    other name the claim holds: once a call for [childName] under [p] succeeded,
    calling it again with the same options returns the same child and changes
    nothing; and (assertions enabled) calling it again with a different
    [required] or [supplied] flag fails with an assertion error. *)
Theorem createTandem_hasOwnProperty_twice_throws :
  (forall asserts VALIDATION req sup,
     exists h1 c,
       Tandem.createTandem asserts VALIDATION Tandem.sim_heap 1 "hasOwnProperty"
         (Tandem.flags req sup) = Ok (h1, c) /\
       Tandem.createTandem asserts VALIDATION h1 1 "hasOwnProperty" (Tandem.flags req sup)
         = Throw (TypeError "this.children.hasOwnProperty is not a function")) /\
  (forall asserts VALIDATION h p childName o h1 c,
     childName <> "hasOwnProperty" ->
     Tandem.createTandem asserts VALIDATION h p childName o = Ok (h1, c) ->
     Tandem.createTandem asserts VALIDATION h1 p childName o = Ok (h1, c)) /\
  (forall VALIDATION h p childName req1 sup1 req2 sup2 h1 c,
     childName <> "hasOwnProperty" ->
     Tandem.createTandem true VALIDATION h p childName (Tandem.flags req1 sup1) = Ok (h1, c) ->
     (req1, sup1) <> (req2, sup2) ->
     exists msg, Tandem.createTandem true VALIDATION h1 p childName (Tandem.flags req2 sup2)
                 = Throw (AssertionError msg)).
Proof.
  split; [|split].
  - intros [] [] [] []; do 2 eexists; split; reflexivity.
  - intros a V h p n o h1 c Hne H.
    destruct (createTandem_post _ _ _ _ _ _ _ _ H)
      as (parent & parent1 & child & Hp & Hp1 & Hk & Hr & Hs & Hroot & Hc & Hch & Hfl & _ & Hhop).
    specialize (Hhop Hne).
    unfold Tandem.createTandem; rewrite Hp1; cbn [bind]; rewrite Hk, Hroot; cbn [bind].
    rewrite (getExtendedOptions_flags parent parent1 o Hr Hs).
    destruct (Tandem.getExtendedOptions parent o) as [req sup] eqn:E.
    unfold Tandem.hasChildJS; rewrite Hhop; cbn [bind].
    assert (Hhc : Tandem.hasChild parent1 n = true)
      by (unfold Tandem.hasChild; rewrite Hc; reflexivity).
    rewrite Hhc, Hc; cbn [bind]; rewrite Hch; cbn [bind].
    destruct a; simpl; [|reflexivity].
    specialize (Hfl eq_refl); injection Hfl as -> ->.
    rewrite !Bool.eqb_reflx; reflexivity.
  - intros V h p n req1 sup1 req2 sup2 h1 c Hne H Hdiff.
    destruct (createTandem_post _ _ _ _ _ _ _ _ H)
      as (parent & parent1 & child & Hp & Hp1 & Hk & Hr & Hs & Hroot & Hc & Hch & Hfl & _ & Hhop).
    specialize (Hhop Hne).
    specialize (Hfl eq_refl); simpl in Hfl; injection Hfl as Hrq Hsp.
    unfold Tandem.createTandem; rewrite Hp1; cbn [bind]; rewrite Hk, Hroot; cbn [bind].
    rewrite (getExtendedOptions_flags parent parent1 _ Hr Hs); simpl.
    unfold Tandem.hasChildJS; rewrite Hhop; cbn [bind].
    assert (Hhc : Tandem.hasChild parent1 n = true)
      by (unfold Tandem.hasChild; rewrite Hc; reflexivity).
    rewrite Hhc, Hc; cbn [bind]; rewrite Hch; cbn [bind].
    rewrite Hrq, Hsp.
    destruct (Bool.eqb req1 req2) eqn:E1; simpl.
    + destruct (Bool.eqb sup1 sup2) eqn:E2; simpl; [|eauto].
      apply Bool.eqb_prop in E1; apply Bool.eqb_prop in E2; congruence.
    + eauto.
Qed.

(** Both behaviours on a simulation's tree: under [sim.test],
    [createTandem( 'hasOwnProperty' )] twice throws a TypeError, while
    [createTandem( 'x', { required: true, supplied: true } )] twice returns the
    same child and a third call with [{ required: false, supplied: true }]
    fails. *)
Lemma createTandem_hasOwnProperty_twice_throws_witness :
  (exists h0 c0,
    Tandem.createTandem true true Tandem.sim_heap 1 "hasOwnProperty" (Tandem.flags true true)
      = Ok (h0, c0) /\
    Tandem.createTandem true true h0 1 "hasOwnProperty" (Tandem.flags true true)
      = Throw (TypeError "this.children.hasOwnProperty is not a function")) /\
  exists h1 c,
    Tandem.createTandem true true Tandem.sim_heap 1 "x" (Tandem.flags true true) = Ok (h1, c) /\
    Tandem.createTandem true true h1 1 "x" (Tandem.flags true true) = Ok (h1, c) /\
    exists msg, Tandem.createTandem true true h1 1 "x" (Tandem.flags false true)
                = Throw (AssertionError msg).
Proof.
  destruct createTandem_hasOwnProperty_twice_throws as [Hhop [Hsame Hdiff]].
  split; [exact (Hhop true true true true)|].
  assert (Hx : "x" <> "hasOwnProperty") by discriminate.
  destruct (Tandem.createTandem true true Tandem.sim_heap 1 "x" (Tandem.flags true true))
    as [[h1 c]|e] eqn:E; [|discriminate].
  exists h1, c; split; [reflexivity|]; split.
  - exact (Hsame _ _ _ _ _ _ _ _ Hx E).
  - apply (Hdiff true Tandem.sim_heap 1%nat "x" true true false true h1 c Hx E).
    intros Heq; discriminate Heq.
Defined.

(** ** Properties of the registration buffer *)

Section RegistrationProofs.

Import Registration.

Lemma addPhetioObject_supplied asserts VALIDATION o st :
  po_supplied o = true ->
  addPhetioObject asserts true VALIDATION o st =
  if launched st then Ok (notify_all st o)
  else Ok (set_buffer st (app (bufferedPhetioObjects st) [o])).
Proof.
  intros Hs; unfold addPhetioObject; rewrite Hs.
  rewrite js_assert_pass by (intros _; destruct (po_required o); reflexivity); cbn [bind].
  rewrite Bool.andb_false_r; simpl; destruct (launched st); reflexivity.
Qed.

Lemma registerAll_before_launch asserts VALIDATION os :
  supplied_all os ->
  forall b ls ns,
    registerAll asserts true VALIDATION os (mkRegistry false b ls ns) =
    Ok (mkRegistry false (app b os) ls ns).
Proof.
  induction 1 as [|o os Ho Hos IH]; intros b ls ns; cbn [registerAll].
  - rewrite app_nil_r; reflexivity.
  - rewrite addPhetioObject_supplied by exact Ho; cbn [launched bind].
    unfold set_buffer; cbn [bufferedPhetioObjects phetioObjectListeners notifications].
    rewrite IH, <- app_assoc; reflexivity.
Qed.

Lemma flushBuffer_after_launch asserts VALIDATION b :
  supplied_all b ->
  forall ls ns,
    flushBuffer asserts true VALIDATION (List.length b) (mkRegistry true b ls ns) =
    Ok (mkRegistry true [] ls (app ns (listener_calls ls b))).
Proof.
  induction 1 as [|o b Ho Hb IH]; intros ls ns; cbn [flushBuffer List.length].
  - rewrite app_nil_r; reflexivity.
  - cbn [bufferedPhetioObjects].
    rewrite addPhetioObject_supplied by exact Ho; simpl.
    unfold notify_all; simpl; rewrite IH, <- app_assoc; reflexivity.
Qed.

Lemma launch_supplied asserts VALIDATION b ls ns :
  supplied_all b ->
  launch asserts true VALIDATION (mkRegistry false b ls ns) =
  Ok (mkRegistry true [] ls (app ns (listener_calls ls b))).
Proof.
  intros Hb; unfold launch; simpl.
  rewrite js_assert_pass by reflexivity; cbn [bind].
  rewrite flushBuffer_after_launch by exact Hb; cbn [bind].
  rewrite js_assert_pass by reflexivity; reflexivity.
Qed.

(** C4: with PhET-iO enabled and every registered object's tandem supplied,
    registrations made before [launch()] only grow the buffer and notify no
    listener; [launch()] notifies every listener of each buffered object, object
    by object in registration order (first in, first out), and empties the
    buffer; after it, a registration notifies all listeners at once, within the
    call; and (assertions enabled) a second [launch()] fails. *)
Theorem registration_launch_order :
  forall asserts VALIDATION b ls ns os,
    supplied_all (app b os) ->
    exists st2,
      registerAll asserts true VALIDATION os (mkRegistry false b ls ns) =
        Ok (mkRegistry false (app b os) ls ns) /\
      launch asserts true VALIDATION (mkRegistry false (app b os) ls ns) = Ok st2 /\
      launched st2 = true /\ bufferedPhetioObjects st2 = [] /\
      phetioObjectListeners st2 = ls /\
      notifications st2 = app ns (listener_calls ls (app b os)) /\
      (forall o, po_supplied o = true ->
         addPhetioObject asserts true VALIDATION o st2 =
         Ok (mkRegistry true [] ls (app (notifications st2) (map (fun l => (l, o)) ls)))) /\
      (asserts = true ->
       exists msg, launch asserts true VALIDATION st2 = Throw (AssertionError msg)).
Proof.
  intros asserts VALIDATION b ls ns os Hall.
  pose proof Hall as Hos; apply Forall_app in Hos as [_ Hos].
  eexists; split; [|split].
  - apply registerAll_before_launch; exact Hos.
  - apply launch_supplied; exact Hall.
  - repeat split; cbn [launched bufferedPhetioObjects notifications phetioObjectListeners].
    + intros o Ho; rewrite addPhetioObject_supplied by exact Ho; reflexivity.
    + intros ->; eexists; reflexivity.
Qed.

(** Three objects registered before launch, two listeners. *)
Lemma registration_launch_order_witness :
  exists st2,
    registerAll true true true
      [mkPhetioObject 1 true true; mkPhetioObject 2 true true; mkPhetioObject 3 false true]
      (mkRegistry false [] [7%nat; 8%nat] []) =
      Ok (mkRegistry false
            [mkPhetioObject 1 true true; mkPhetioObject 2 true true; mkPhetioObject 3 false true]
            [7%nat; 8%nat] []) /\
    launch true true true
      (mkRegistry false
         [mkPhetioObject 1 true true; mkPhetioObject 2 true true; mkPhetioObject 3 false true]
         [7%nat; 8%nat] []) = Ok st2 /\
    launched st2 = true /\ bufferedPhetioObjects st2 = [] /\
    phetioObjectListeners st2 = [7%nat; 8%nat] /\
    notifications st2 =
      app [] (listener_calls [7%nat; 8%nat]
        (app [] [mkPhetioObject 1 true true; mkPhetioObject 2 true true;
                 mkPhetioObject 3 false true])) /\
    (forall o, po_supplied o = true ->
       addPhetioObject true true true o st2 =
       Ok (mkRegistry true [] [7%nat; 8%nat]
             (app (notifications st2) (map (fun l => (l, o)) [7%nat; 8%nat])))) /\
    (true = true -> exists msg, launch true true true st2 = Throw (AssertionError msg)).
Proof.
  apply (registration_launch_order true true [] [7%nat; 8%nat] []).
  repeat constructor.
Defined.

End RegistrationProofs.

(** ** Properties of dynamic element containers *)

Section ContainerProofs.

Import Dynamic.

Context {St Obs : Type}.
Context (getC : St -> container Obs) (setC : St -> container Obs -> St).
Context (observe : St -> Obs).

(** The container fields are a part of the subtype's state that listeners do
    not read. *)
Hypothesis get_set : forall s c, getC (setC s c) = c.
Hypothesis set_set : forall s c1 c2, setC (setC s c1) c2 = setC s c2.
Hypothesis observe_set : forall s c, observe (setC s c) = observe s.

Lemma indexOf_head (e : element) l : indexOf (e :: l) e = Some 0%nat.
Proof. simpl; unfold same_element; rewrite Nat.eqb_refl; reflexivity. Qed.

Lemma arrayRemove_head asserts (e : element) l : arrayRemove asserts (e :: l) e = Ok l.
Proof. unfold arrayRemove; rewrite indexOf_head; reflexivity. Qed.

Hypothesis set_get : forall s, setC s (getC s) = s.

Lemma cu_refl s : container_update getC setC observe s s.
Proof. exists (getC s), []; rewrite set_get, app_nil_r; auto. Qed.

Lemma cu_trans s1 s2 s3 :
  container_update getC setC observe s1 s2 -> container_update getC setC observe s2 s3 ->
  container_update getC setC observe s1 s3.
Proof.
  intros (c1 & x1 & -> & E1 & F1) (c2 & x2 & -> & E2 & F2).
  exists c2, (app x1 x2); rewrite set_set; split; [reflexivity|]; split.
  - rewrite E2, get_set, E1, app_assoc; reflexivity.
  - rewrite observe_set in F2; apply Forall_app; auto.
Qed.

Lemma cu_setC s c : events c = events (getC s) -> container_update getC setC observe s (setC s c).
Proof. intros E; exists c, []; rewrite app_nil_r; auto. Qed.

Lemma cu_logEvent ev s :
  event_obs ev = observe s -> container_update getC setC observe s (logEvent getC setC ev s).
Proof. intros H; eexists; exists [ev]; unfold logEvent; split; [reflexivity|]; cbn; auto. Qed.

Lemma cu_setCreations s l : container_update getC setC observe s (setCreations getC setC s l).
Proof. apply cu_setC; reflexivity. Qed.

Lemma cu_setDisposals s l : container_update getC setC observe s (setDisposals getC setC s l).
Proof. apply cu_setC; reflexivity. Qed.

Lemma cu_emitCreated e s : container_update getC setC observe s (emitCreated getC setC observe e s).
Proof. apply cu_logEvent; reflexivity. Qed.

Lemma cu_emitDisposed e s : container_update getC setC observe s (emitDisposed getC setC observe e s).
Proof. apply cu_logEvent; reflexivity. Qed.

Lemma cu_notifyElementCreated e s :
  container_update getC setC observe s (notifyElementCreated getC setC observe e s).
Proof.
  unfold notifyElementCreated; destruct (notificationsDeferred (getC s));
    [apply cu_setCreations | apply cu_emitCreated].
Qed.

Lemma cu_containerDisposeElement e s :
  container_update getC setC observe s (containerDisposeElement getC setC observe e s).
Proof.
  unfold containerDisposeElement.
  assert (H1 : container_update getC setC observe s (disposeElementObject getC setC observe e s)).
  { unfold disposeElementObject; cbv zeta.
    apply cu_trans with (s2 := logEvent getC setC (DisposeCalled e (observe s)) s).
    - apply cu_logEvent; reflexivity.
    - apply cu_setC; reflexivity. }
  destruct (notificationsDeferred _); (eapply cu_trans; [exact H1|]).
  - apply cu_setDisposals.
  - apply cu_emitDisposed.
Qed.

Lemma cu_notifyElementCreatedWhileDeferred asserts e s s' :
  notifyElementCreatedWhileDeferred asserts getC setC observe e s = Ok s' ->
  container_update getC setC observe s s'.
Proof.
  unfold notifyElementCreatedWhileDeferred; intros H.
  apply bind_ok_inv in H as [[] [_ H]].
  apply bind_ok_inv in H as [[] [_ H]].
  apply bind_ok_inv in H as [l [_ H]].
  injection H as <-.
  eapply cu_trans; [apply cu_emitCreated | apply cu_setCreations].
Qed.

Lemma cu_notifyElementDisposedWhileDeferred asserts e s s' :
  notifyElementDisposedWhileDeferred asserts getC setC observe e s = Ok s' ->
  container_update getC setC observe s s'.
Proof.
  unfold notifyElementDisposedWhileDeferred; intros H.
  apply bind_ok_inv in H as [[] [_ H]].
  apply bind_ok_inv in H as [[] [_ H]].
  apply bind_ok_inv in H as [l [_ H]].
  injection H as <-.
  eapply cu_trans; [apply cu_emitDisposed | apply cu_setDisposals].
Qed.

Lemma cu_flushCreations asserts fuel :
  forall s s', flushCreations asserts getC setC observe fuel s = Ok s' ->
  container_update getC setC observe s s'.
Proof.
  induction fuel as [|f IH]; intros s s' H; cbn [flushCreations] in H.
  - injection H as <-; apply cu_refl.
  - destruct (deferredCreations (getC s)) as [|e l].
    + injection H as <-; apply cu_refl.
    + apply bind_ok_inv in H as [s1 [H1 H]].
      eapply cu_trans; [eapply cu_notifyElementCreatedWhileDeferred; exact H1 | apply IH; exact H].
Qed.

Lemma cu_flushDisposals asserts fuel :
  forall s s', flushDisposals asserts getC setC observe fuel s = Ok s' ->
  container_update getC setC observe s s'.
Proof.
  induction fuel as [|f IH]; intros s s' H; cbn [flushDisposals] in H.
  - injection H as <-; apply cu_refl.
  - destruct (deferredDisposals (getC s)) as [|e l].
    + injection H as <-; apply cu_refl.
    + apply bind_ok_inv in H as [s1 [H1 H]].
      eapply cu_trans; [eapply cu_notifyElementDisposedWhileDeferred; exact H1 | apply IH; exact H].
Qed.

Lemma cu_setNotificationsDeferred asserts b s s' :
  setNotificationsDeferred asserts getC setC observe b s = Ok s' ->
  container_update getC setC observe s s'.
Proof.
  unfold setNotificationsDeferred; intros H.
  apply bind_ok_inv in H as [[] [_ H]].
  apply bind_ok_inv in H as [s2 [H2 H]].
  apply bind_ok_inv in H as [[] [_ H]].
  apply bind_ok_inv in H as [[] [_ H]].
  injection H as <-.
  apply cu_trans with (s2 := s2); [|apply cu_setC; reflexivity].
  destruct (negb b).
  - apply bind_ok_inv in H2 as [s1 [H1 H2]].
    eapply cu_trans; [eapply cu_flushCreations; exact H1 | eapply cu_flushDisposals; exact H2].
  - injection H2 as <-; apply cu_refl.
Qed.

Lemma flushCreations_spec asserts l :
  forall s dd de ev,
    getC s = mkContainer true l dd de ev ->
    flushCreations asserts getC setC observe (List.length l) s =
    Ok (setC s (mkContainer true [] dd de (app ev (created_events (observe s) l)))).
Proof.
  induction l as [|e l IH]; intros s dd de ev Hc; cbn [flushCreations List.length].
  - rewrite app_nil_r, <- Hc, set_get; reflexivity.
  - rewrite Hc; cbn [deferredCreations].
    unfold notifyElementCreatedWhileDeferred.
    rewrite Hc; cbn [notificationsDeferred deferredCreations].
    rewrite js_assert_pass by reflexivity; cbn [bind].
    unfold contains; rewrite indexOf_head.
    rewrite js_assert_pass by reflexivity; cbn [bind].
    unfold emitCreated, logEvent; rewrite Hc, get_set; cbn [deferredCreations].
    rewrite arrayRemove_head; cbn [bind].
    unfold setCreations; rewrite get_set, set_set; cbn.
    rewrite IH with (dd := dd) (de := de) (ev := app ev [ElementCreated e (observe s)]).
    + rewrite set_set, observe_set, <- app_assoc; reflexivity.
    + apply get_set.
Qed.

Lemma flushDisposals_spec asserts l :
  forall s de ev,
    getC s = mkContainer true [] l de ev ->
    flushDisposals asserts getC setC observe (List.length l) s =
    Ok (setC s (mkContainer true [] [] de (app ev (disposed_events (observe s) l)))).
Proof.
  induction l as [|e l IH]; intros s de ev Hc; cbn [flushDisposals List.length].
  - rewrite app_nil_r, <- Hc, set_get; reflexivity.
  - rewrite Hc; cbn [deferredDisposals].
    unfold notifyElementDisposedWhileDeferred.
    rewrite Hc; cbn [notificationsDeferred deferredDisposals].
    rewrite js_assert_pass by reflexivity; cbn [bind].
    unfold contains; rewrite indexOf_head.
    rewrite js_assert_pass by reflexivity; cbn [bind].
    unfold emitDisposed, logEvent; rewrite Hc, get_set; cbn [deferredDisposals].
    rewrite arrayRemove_head; cbn [bind].
    unfold setDisposals; rewrite get_set, set_set; cbn.
    rewrite IH with (de := de) (ev := app ev [ElementDisposed e (observe s)]).
    + rewrite set_set, observe_set, <- app_assoc; reflexivity.
    + apply get_set.
Qed.

(** C2: in every dynamic element container whose notifications are deferred, a
    created element is appended to [deferredCreations] and a disposed element
    (disposed at once) to [deferredDisposals], with no notification; then
    [setNotificationsDeferred( false )] emits a creation notification for each
    queued creation in queue order, then a disposal notification for each
    queued disposal in queue order, and leaves both queues empty. *)
Theorem deferred_notifications_flush :
  forall asserts s,
    notificationsDeferred (getC s) = true ->
    (forall e,
       notifyElementCreated getC setC observe e s =
       setC s (mkContainer true (app (deferredCreations (getC s)) [e])
                 (deferredDisposals (getC s)) (disposedElements (getC s)) (events (getC s)))) /\
    (forall e,
       containerDisposeElement getC setC observe e s =
       setC s (mkContainer true (deferredCreations (getC s))
                 (app (deferredDisposals (getC s)) [e])
                 (app (disposedElements (getC s)) [el_id e])
                 (app (events (getC s)) [DisposeCalled e (observe s)]))) /\
    setNotificationsDeferred asserts getC setC observe false s =
    Ok (setC s (mkContainer false [] [] (disposedElements (getC s))
                  (app (events (getC s))
                     (app (created_events (observe s) (deferredCreations (getC s)))
                          (disposed_events (observe s) (deferredDisposals (getC s))))))).
Proof.
  intros asserts s Hd.
  destruct (getC s) as [nd dc dd de ev] eqn:Hc; cbn in Hd |- *; subst nd.
  split; [|split].
  - intros e; unfold notifyElementCreated, setCreations; rewrite Hc; reflexivity.
  - intros e; unfold containerDisposeElement, disposeElementObject, logEvent, setDisposals.
    repeat first [rewrite get_set | rewrite set_set | rewrite observe_set | rewrite Hc
                 | progress cbn].
    reflexivity.
  - unfold setNotificationsDeferred; rewrite Hc; cbn [notificationsDeferred].
    rewrite js_assert_pass by reflexivity; cbn [bind negb deferredCreations].
    rewrite (flushCreations_spec asserts dc s dd de ev Hc); cbn [bind].
    rewrite get_set; cbn [deferredDisposals].
    rewrite (flushDisposals_spec asserts dd _ de (app ev (created_events (observe s) dc)))
      by apply get_set; cbn [bind].
    rewrite !get_set; cbn.
    rewrite !set_set, observe_set, app_assoc.
    rewrite !js_assert_pass by reflexivity; reflexivity.
Qed.

End ContainerProofs.

(** ** Properties of PhetioGroup *)

Section GroupProofs.

Import Dynamic.

Lemma group_get_set g c : gcontainer (group_setC g c) = c.
Proof. reflexivity. Qed.

Lemma group_set_set g c1 c2 : group_setC (group_setC g c1) c2 = group_setC g c2.
Proof. reflexivity. Qed.

Lemma group_observe_set g c : group_observe (group_setC g c) = group_observe g.
Proof. reflexivity. Qed.

Lemma group_set_get g : group_setC g (gcontainer g) = g.
Proof. destruct g; reflexivity. Qed.

(** The deferred flush on a group that deferred its notifications, created
    three elements and disposed the second. *)
Lemma deferred_notifications_flush_witness :
  notificationsDeferred (gcontainer deferredScenario) = true /\
  groupSetNotificationsDeferred true false deferredScenario =
  Ok (group_setC deferredScenario
        (mkContainer false [] [] (disposedElements (gcontainer deferredScenario))
           (app (events (gcontainer deferredScenario))
              (app (created_events (group_observe deferredScenario)
                      (deferredCreations (gcontainer deferredScenario)))
                   (disposed_events (group_observe deferredScenario)
                      (deferredDisposals (gcontainer deferredScenario))))))).
Proof.
  split; [vm_compute; reflexivity|].
  exact (proj2 (proj2 (deferred_notifications_flush gcontainer group_setC group_observe
                         group_get_set group_set_set group_observe_set group_set_get
                         true deferredScenario eq_refl))).
Defined.

(** The scenario: the three creations are notified, in creation order, and
    then the one disposal; the element itself was disposed when
    [disposeElement] was called. *)
Lemma deferred_scenario_notifications :
  run_group_ops true (app deferredScenarioOps [SetNotificationsDeferred false]) initialGroup =
  Ok (mkGroup
        (mkContainer false [] [] [1%nat]
           [DisposeCalled (mkElement 1 (Some 1%nat)) (2%nat, 2%nat);
            ElementCreated (mkElement 0 (Some 0%nat)) (2%nat, 2%nat);
            ElementCreated (mkElement 1 (Some 1%nat)) (2%nat, 2%nat);
            ElementCreated (mkElement 2 (Some 2%nat)) (2%nat, 2%nat);
            ElementDisposed (mkElement 1 (Some 1%nat)) (2%nat, 2%nat)])
        [mkElement 0 (Some 0%nat); mkElement 2 (Some 2%nat)] 3 2 3).
Proof. vm_compute; reflexivity. Qed.

Ltac group_lens :=
  first [exact group_get_set | exact group_set_set | exact group_observe_set
        | exact group_set_get].

Lemma group_cu_consistent g g' :
  group_count_consistent g -> container_update gcontainer group_setC group_observe g g' ->
  group_count_consistent g'.
Proof.
  intros [Hc Hf] (c & x & -> & E & F).
  split; [exact Hc|]; cbn; rewrite E; apply Forall_app; split; [exact Hf|].
  eapply Forall_impl; [|exact F]; intros ev Hev.
  destruct ev; cbn in Hev |- *; rewrite Hev; exact Hc.
Qed.

Lemma setCountProperty_ok asserts g n g' :
  setCountProperty asserts g n = Ok g' ->
  g' = mkGroup (gcontainer g) (_array g) (groupElementIndex g) n (nextElementId g).
Proof.
  unfold setCountProperty; intros H.
  apply bind_ok_inv in H as [[] [_ H]]; injection H as <-; reflexivity.
Qed.

Lemma consistent_set_groupElementIndex g i :
  group_count_consistent g -> group_count_consistent (set_groupElementIndex g i).
Proof. destruct g; intros H; exact H. Qed.

Lemma consistent_createIndexedElement asserts i g g' e :
  group_count_consistent g -> createIndexedElement asserts i g = Ok (g', e) ->
  group_count_consistent g'.
Proof.
  intros [_ Hf]; unfold createIndexedElement; cbn [groupCreateDynamicElement].
  intros H; apply bind_ok_inv in H as [g3 [H3 H]]; injection H as <- _.
  apply setCountProperty_ok in H3; subst g3.
  eapply group_cu_consistent; [|apply cu_notifyElementCreated].
  split; [reflexivity | exact Hf].
Qed.

Lemma consistent_groupDisposeElement asserts e g g' :
  group_count_consistent g -> groupDisposeElement asserts e g = Ok g' ->
  group_count_consistent g'.
Proof.
  intros [_ Hf]; unfold groupDisposeElement; intros H.
  apply bind_ok_inv in H as [[] [_ H]].
  apply bind_ok_inv in H as [a [_ H]].
  apply bind_ok_inv in H as [g2 [H2 H]]; injection H as <-.
  apply setCountProperty_ok in H2; subst g2.
  eapply group_cu_consistent; [|apply cu_containerDisposeElement; group_lens].
  split; [reflexivity | exact Hf].
Qed.

Lemma consistent_clearLoop asserts fuel :
  forall g g', group_count_consistent g -> clearLoop asserts fuel g = Ok g' ->
  group_count_consistent g'.
Proof.
  induction fuel as [|f IH]; intros g g' Hg H; cbn [clearLoop] in H.
  - injection H as <-; exact Hg.
  - destruct (_array g) as [|e l].
    + injection H as <-; exact Hg.
    + apply bind_ok_inv in H as [g1 [H1 H]].
      eapply IH; [eapply consistent_groupDisposeElement; eassumption | exact H].
Qed.

Lemma consistent_run_group_op asserts op g g' :
  group_count_consistent g -> run_group_op asserts op g = Ok g' -> group_count_consistent g'.
Proof.
  intros Hg; destruct op as [| i | i | i | e | r | b]; cbn [run_group_op]; intros H.
  - apply bind_ok_inv in H as [[g1 e] [H1 H]]; injection H as <-.
    eapply consistent_createIndexedElement; [|exact H1].
    apply consistent_set_groupElementIndex; exact Hg.
  - apply bind_ok_inv in H as [[g1 e] [H1 H]]; injection H as <-.
    eapply consistent_createIndexedElement; eassumption.
  - apply bind_ok_inv in H as [[g1 e] [H1 H]]; injection H as <-.
    unfold createCorrespondingGroupElement in H1.
    eapply consistent_createIndexedElement; [|exact H1].
    destruct (Nat.eqb _ _); [apply consistent_set_groupElementIndex|]; exact Hg.
  - apply bind_ok_inv in H as [[g1 e] [H1 H]]; injection H as <-.
    unfold addChildElement in H1.
    apply bind_ok_inv in H1 as [[g2 e2] [H2 H1]]; injection H1 as <- _; cbn [fst].
    apply consistent_set_groupElementIndex.
    eapply consistent_createIndexedElement; eassumption.
  - eapply consistent_groupDisposeElement; eassumption.
  - unfold clear in H; apply bind_ok_inv in H as [g1 [H1 H]]; injection H as <-.
    assert (group_count_consistent g1) by (eapply consistent_clearLoop; eassumption).
    destruct r; [apply consistent_set_groupElementIndex|]; assumption.
  - eapply group_cu_consistent; [exact Hg|].
    eapply cu_setNotificationsDeferred; [group_lens.. | exact H].
Qed.

Lemma consistent_run_group_ops asserts ops :
  forall g g', group_count_consistent g -> run_group_ops asserts ops g = Ok g' ->
  group_count_consistent g'.
Proof.
  induction ops as [|op ops IH]; intros g g' Hg H; cbn [run_group_ops] in H.
  - injection H as <-; exact Hg.
  - apply bind_ok_inv in H as [g1 [H1 H]].
    eapply IH; [eapply consistent_run_group_op; eassumption | exact H].
Qed.

(** C9: whatever operations a group undergoes (creations, disposals, clears,
    deferral switches), its [countProperty] equals the length of its element
    array afterwards, and every listener, whether notified of a creation or a
    disposal (immediately or on a deferred flush) or called as the element's
    [dispose()], observed [countProperty.value] equal to [_array.length]. *)
Theorem group_count_matches_length :
  forall asserts ops g,
    run_group_ops asserts ops initialGroup = Ok g ->
    countProperty g = List.length (_array g) /\
    Forall (fun ev => fst (event_obs ev) = snd (event_obs ev)) (events (gcontainer g)).
Proof.
  intros asserts ops g H.
  apply (consistent_run_group_ops asserts ops initialGroup g); [|exact H].
  split; [reflexivity | constructor].
Qed.

Lemma group_count_matches_length_witness :
  exists g,
    run_group_ops true
      (app deferredScenarioOps [SetNotificationsDeferred false; Clear true; CreateNextElement])
      initialGroup = Ok g /\
    countProperty g = List.length (_array g) /\
    Forall (fun ev => fst (event_obs ev) = snd (event_obs ev)) (events (gcontainer g)).
Proof.
  eexists; split; [vm_compute; reflexivity|].
  apply (group_count_matches_length true
           (app deferredScenarioOps [SetNotificationsDeferred false; Clear true; CreateNextElement])).
  vm_compute; reflexivity.
Defined.

Lemma setCountProperty_length asserts g :
  setCountProperty asserts g (List.length (_array g)) =
  Ok (mkGroup (gcontainer g) (_array g) (groupElementIndex g) (List.length (_array g))
        (nextElementId g)).
Proof.
  unfold setCountProperty; destruct (Nat.eqb _ _); cbn [bind]; [reflexivity|].
  rewrite js_assert_pass by (intros _; apply Nat.eqb_refl); reflexivity.
Qed.

Lemma createNextElement_after_creations asserts n :
  createNextElement asserts (groupAfterCreations n) =
  Ok (groupAfterCreations (S n), mkElement n (Some n)).
Proof.
  unfold createNextElement, createIndexedElement; cbn.
  rewrite setCountProperty_length; cbn.
  unfold emitCreated, logEvent, group_observe, groupAfterCreations.
  rewrite (seq_S n 0), !map_app.
  cbn -[seq map List.length].
  rewrite !length_app, !length_map, !length_seq, Nat.add_1_r; reflexivity.
Qed.

Lemma run_createNext_after_creations asserts n :
  forall m, run_group_ops asserts (repeat CreateNextElement n) (groupAfterCreations m) =
            Ok (groupAfterCreations (m + n)).
Proof.
  induction n as [|n IH]; intros m; cbn [repeat run_group_ops].
  - rewrite Nat.add_0_r; reflexivity.
  - cbn [run_group_op]; rewrite createNextElement_after_creations; cbn [bind fst].
    rewrite IH, Nat.add_succ_r; reflexivity.
Qed.

Lemma nth_error_seq_lt st len k : (k < len)%nat -> nth_error (seq st len) k = Some (st + k)%nat.
Proof.
  revert st k; induction len as [|len IH]; intros st [|k] H; cbn; try lia.
  - rewrite Nat.add_0_r; reflexivity.
  - rewrite IH by lia; f_equal; lia.
Qed.

Lemma indexOf_indexed st len k :
  (k < len)%nat ->
  indexOf (map (fun i => mkElement i (Some i)) (seq st len))
    (mkElement (st + k) (Some (st + k)%nat)) =
  Some k.
Proof.
  revert st k; induction len as [|len IH]; intros st k H; [lia|].
  cbn [seq map indexOf]; unfold same_element; cbn [el_id].
  destruct k as [|k].
  - rewrite Nat.add_0_r, Nat.eqb_refl; reflexivity.
  - replace (Nat.eqb st (st + S k)) with false by (symmetry; apply Nat.eqb_neq; lia).
    replace (st + S k)%nat with (S st + k)%nat by lia.
    rewrite IH by lia; reflexivity.
Qed.

Lemma remove_at_map {A B} (f : A -> B) l k : remove_at (map f l) k = map f (remove_at l k).
Proof.
  revert k; induction l as [|x l IH]; intros [|k]; cbn; try rewrite IH; reflexivity.
Qed.

Lemma containerDisposeElement_group e g :
  exists c, containerDisposeElement gcontainer group_setC group_observe e g = group_setC g c.
Proof.
  destruct (cu_containerDisposeElement gcontainer group_setC group_observe
              group_get_set group_set_set group_observe_set e g) as (c & _ & E & _).
  exists c; exact E.
Qed.

Lemma notifyElementCreated_group e g :
  exists c, notifyElementCreated gcontainer group_setC group_observe e g = group_setC g c.
Proof.
  destruct (cu_notifyElementCreated gcontainer group_setC group_observe e g) as (c & _ & E & _).
  exists c; exact E.
Qed.

Lemma createNextElement_spec asserts g :
  exists g',
    createNextElement asserts g =
      Ok (g', mkElement (nextElementId g) (Some (groupElementIndex g))) /\
    _array g' = app (_array g) [mkElement (nextElementId g) (Some (groupElementIndex g))].
Proof.
  unfold createNextElement, createIndexedElement; cbn.
  rewrite setCountProperty_length; cbn [bind].
  match goal with |- context [notifyElementCreated ?a ?b ?c ?e ?g0] =>
    destruct (notifyElementCreated_group e g0) as [c0 E]; rewrite E end.
  eexists; split; reflexivity.
Qed.

(** C5: after [N] calls of [createNextElement()] on a new group, the element
    array holds [N] elements with indices [0, 1, ..., N-1] in order; and after
    disposing any one of them (at position [k], index [k]) the next
    [createNextElement()] creates an element with index [N], so the array then
    holds the indices without [k] followed by [N]: [k] is not reused. *)
Theorem group_indices_never_reused :
  forall asserts N,
    exists g,
      run_group_ops asserts (repeat CreateNextElement N) initialGroup = Ok g /\
      map el_index (_array g) = map Some (seq 0 N) /\
      forall k e, nth_error (_array g) k = Some e ->
        exists g1 g2 e',
          groupDisposeElement asserts e g = Ok g1 /\
          createNextElement asserts g1 = Ok (g2, e') /\
          el_index e' = Some N /\
          map el_index (_array g2) = map Some (app (remove_at (seq 0 N) k) [N]).
Proof.
  intros asserts N; exists (groupAfterCreations N); split; [|split].
  - exact (run_createNext_after_creations asserts N 0).
  - cbn; rewrite map_map; reflexivity.
  - intros k e Hk; cbn [groupAfterCreations _array] in Hk.
    assert (Hlt : (k < N)%nat).
    { assert (Hne : nth_error (map (fun i => mkElement i (Some i)) (seq 0 N)) k <> None)
        by congruence.
      apply nth_error_Some in Hne; rewrite length_map, length_seq in Hne; exact Hne. }
    rewrite nth_error_map, nth_error_seq_lt in Hk by exact Hlt; cbn in Hk.
    injection Hk as <-.
    pose proof (indexOf_indexed 0 N k Hlt) as Hi; cbn [Nat.add] in Hi.
    unfold groupDisposeElement.
    rewrite js_assert_pass by reflexivity; cbn [bind].
    unfold arrayRemove; cbn [groupAfterCreations _array]; rewrite Hi; cbn [bind].
    rewrite setCountProperty_length; cbn [bind].
    match goal with |- context [containerDisposeElement ?a ?b ?c ?e ?g0] =>
      destruct (containerDisposeElement_group e g0) as [c0 E]; rewrite E end.
    match goal with |- exists g1 g2 e', Ok ?v = Ok g1 /\ _ =>
      exists v; destruct (createNextElement_spec asserts v) as (g2 & Hc & Ha);
      exists g2, (mkElement (nextElementId v) (Some (groupElementIndex v)))
    end.
    split; [reflexivity|]; split; [exact Hc|]; split; [reflexivity|].
    rewrite Ha; cbn; rewrite remove_at_map, !map_app, map_map; reflexivity.
Qed.

End GroupProofs.

(** ** Properties of PhetioCapsule *)

Section CapsuleProofs.

Import Dynamic.

Lemma notifyElementCreated_capsule e cap :
  let cap' := notifyElementCreated ccontainer capsule_setC capsule_observe e cap in
  capsuleElement cap' = capsuleElement cap /\
  nextCapsuleElementId cap' = nextCapsuleElementId cap /\
  disposedElements (ccontainer cap') = disposedElements (ccontainer cap).
Proof.
  unfold notifyElementCreated, setCreations, emitCreated, logEvent.
  destruct (notificationsDeferred _); repeat split.
Qed.

Lemma containerDisposeElement_capsule e cap :
  let cap' := containerDisposeElement ccontainer capsule_setC capsule_observe e cap in
  nextCapsuleElementId cap' = nextCapsuleElementId cap /\
  disposedElements (ccontainer cap') = app (disposedElements (ccontainer cap)) [el_id e].
Proof.
  unfold containerDisposeElement, disposeElementObject, setDisposals, emitDisposed, logEvent.
  cbn; destruct (notificationsDeferred (ccontainer cap)); split; reflexivity.
Qed.

Lemma filter_andb {A} (f g : A -> bool) l :
  filter (fun x => f x && g x) l = filter g (filter f l).
Proof.
  induction l as [|x l IH]; cbn; [reflexivity|].
  destruct (f x); cbn; [destruct (g x)|]; rewrite ?IH; reflexivity.
Qed.

Lemma filter_all_true {A} (f : A -> bool) l : (forall x, In x l -> f x = true) -> filter f l = l.
Proof.
  induction l as [|x l IH]; intros H; cbn; [reflexivity|].
  rewrite H by (left; reflexivity); rewrite IH by (intros y Hy; apply H; right; exact Hy).
  reflexivity.
Qed.

Lemma capsule_inv_create cap :
  capsule_inv cap -> capsuleElement cap = None -> capsule_inv (fst (create cap)).
Proof.
  intros [Hlive Hd] Hnone; unfold create; cbn [fst].
  match goal with |- capsule_inv ?c =>
    destruct (notifyElementCreated_capsule (mkElement (nextCapsuleElementId cap) None)
                (mkCapsule (ccontainer cap) (Some (mkElement (nextCapsuleElementId cap) None))
                   (S (nextCapsuleElementId cap)))) as (He & Hn & Hdd);
    cbv zeta in He, Hn, Hdd; set (c' := c) in *; clearbody c'
  end.
  cbn in He, Hn, Hdd.
  unfold capsule_inv, liveElementIds, slotElementIds in *.
  rewrite He, Hn, Hdd; rewrite Hnone in Hlive; cbn -[seq].
  split.
  - rewrite seq_S, filter_app, Hlive; cbn.
    replace (existsb (Nat.eqb (nextCapsuleElementId cap)) (disposedElements (ccontainer cap)))
      with false; [reflexivity|].
    symmetry; apply Bool.not_true_iff_false; intros Hex.
    apply existsb_exists in Hex as (i & Hi & Heq); apply Nat.eqb_eq in Heq; subst i.
    rewrite Forall_forall in Hd; specialize (Hd _ Hi); lia.
  - eapply Forall_impl; [|exact Hd]; intros i Hi; cbn in Hi |- *; lia.
Qed.

Lemma capsule_inv_dispose asserts cap cap' :
  capsule_inv cap -> capsuleDisposeElement asserts cap = Ok cap' -> capsule_inv cap'.
Proof.
  intros [Hlive Hd]; unfold capsuleDisposeElement.
  destruct (capsuleElement cap) as [e|] eqn:He.
  2: { destruct asserts; cbn; discriminate. }
  intros H; injection H as <-.
  destruct (containerDisposeElement_capsule e cap) as [Hn Hdd]; cbv zeta in Hn, Hdd.
  unfold capsule_inv, liveElementIds, slotElementIds in *; cbn.
  rewrite Hn, Hdd; rewrite He in Hlive.
  assert (Hin : In (el_id e) (seq 0 (nextCapsuleElementId cap))).
  { assert (In (el_id e) (filter (fun i => negb (existsb (Nat.eqb i)
              (disposedElements (ccontainer cap)))) (seq 0 (nextCapsuleElementId cap))))
      as Hf by (rewrite Hlive; left; reflexivity).
    apply filter_In in Hf; apply Hf. }
  split.
  - erewrite filter_ext.
    2: { intros i; rewrite existsb_app, Bool.negb_orb; cbn [existsb].
         rewrite Bool.orb_false_r; reflexivity. }
    rewrite filter_andb, Hlive; cbn; rewrite Nat.eqb_refl; reflexivity.
  - apply Forall_app; split; [exact Hd|].
    constructor; [|constructor]; apply in_seq in Hin; lia.
Qed.

(** C6 (as amended): a new capsule has no live element, and every
    [getElement()], [clear()] and [disposeElement()] call, and every [create()]
    call made while the slot is empty, keeps the live (created and not yet
    disposed) elements exactly the element in the slot, so there is at most
    one.  ([create()] on a filled slot replaces the element without disposing
    it, see [capsule_create_twice_two_live].) *)
Theorem capsule_live_elements_are_slot :
  capsule_inv initialCapsule /\
  forall asserts op cap cap',
    capsule_inv cap ->
    (op = Create -> capsuleElement cap = None) ->
    run_capsule_op asserts op cap = Ok cap' ->
    capsule_inv cap' /\ liveElementIds cap' = slotElementIds cap' /\
    (List.length (liveElementIds cap') <= 1)%nat.
Proof.
  split; [split; [reflexivity | constructor]|].
  intros asserts op cap cap' Hinv Hcreate H.
  assert (Hinv' : capsule_inv cap').
  { destruct op; cbn [run_capsule_op] in H.
    - injection H as <-; apply capsule_inv_create; [exact Hinv | apply Hcreate; reflexivity].
    - injection H as <-; unfold getElement.
      destruct (capsuleElement cap) eqn:He; [exact Hinv|].
      apply capsule_inv_create; assumption.
    - unfold capsuleClear in H; destruct (capsuleElement cap) eqn:He.
      + eapply capsule_inv_dispose; eassumption.
      + injection H as <-; exact Hinv.
    - eapply capsule_inv_dispose; eassumption. }
  split; [exact Hinv'|]; destruct Hinv' as [Hl _]; split; [exact Hl|].
  rewrite Hl; unfold slotElementIds; destruct (capsuleElement cap'); cbn; lia.
Qed.

(** The amended property along [getElement(); clear(); getElement()]. *)
Lemma capsule_live_elements_are_slot_witness :
  exists cap1 cap2 cap3,
    run_capsule_op true GetElement initialCapsule = Ok cap1 /\
    run_capsule_op true CapsuleClear cap1 = Ok cap2 /\
    run_capsule_op true GetElement cap2 = Ok cap3 /\
    liveElementIds cap1 = slotElementIds cap1 /\
    liveElementIds cap2 = slotElementIds cap2 /\
    liveElementIds cap3 = slotElementIds cap3.
Proof.
  destruct capsule_live_elements_are_slot as [H0 Hstep].
  destruct (run_capsule_op true GetElement initialCapsule) as [cap1|e] eqn:E1; [|discriminate].
  destruct (run_capsule_op true CapsuleClear cap1) as [cap2|e] eqn:E2.
  2: { vm_compute in E1; injection E1 as <-; vm_compute in E2; discriminate. }
  destruct (run_capsule_op true GetElement cap2) as [cap3|e] eqn:E3.
  2: { cbn in E3; discriminate. }
  destruct (Hstep true GetElement initialCapsule cap1 H0 ltac:(discriminate) E1)
    as [H1 [L1 _]].
  destruct (Hstep true CapsuleClear cap1 cap2 H1 ltac:(discriminate) E2) as [H2 [L2 _]].
  destruct (Hstep true GetElement cap2 cap3 H2 ltac:(discriminate) E3) as [H3 [L3 _]].
  exists cap1, cap2, cap3; repeat split; assumption.
Defined.

(** C6 counterexample: two [create()] calls leave two live elements, the first
    one no longer referenced by the capsule. *)
Lemma capsule_create_twice_two_live :
  exists cap,
    run_capsule_ops true [Create; Create] initialCapsule = Ok cap /\
    liveElementIds cap = [0%nat; 1%nat] /\
    capsuleElement cap = Some (mkElement 1 None).
Proof. eexists; split; [vm_compute; reflexivity | split; vm_compute; reflexivity]. Qed.

End CapsuleProofs.

(** ** Validation of the overrides file *)

Section APIValidationProofs.
Import APIValidation.

Lemma validateOverridesFile_app asserts createArchetypes eb pre l :
  validateOverridesFile asserts createArchetypes eb (pre ++ l) =
  (validateOverridesFile asserts createArchetypes eb pre ;;
   validateOverridesFile asserts createArchetypes eb l).
Proof.
  induction pre as [|[id ov] pre IH]; cbn; [reflexivity|].
  rewrite IH. destruct (validateOverride _ _ _ _ _); cbn; [|reflexivity].
  destruct (validateOverridesFile _ _ _ pre); reflexivity.
Qed.

Lemma assoc_lookup_inBaseline eb phetioID b :
  assoc_lookup phetioID eb = Some b -> inBaseline eb phetioID = true.
Proof.
  unfold inBaseline. induction eb as [|[k v] eb IH]; cbn; [discriminate|].
  destruct (String.eqb phetioID k) eqn:E; [reflexivity|].
  intro H. rewrite IH by exact H. apply orb_true_r.
Qed.

(** A metadata key that violates rule 8 stops the key loop with the rule 8 error,
    whichever key of the loop is reported first. *)
Lemma checkMetadataKeys_reports phetioID override baseline bfs ofs keys k :
  baseline = JObj bfs -> override = JObj ofs -> In k keys ->
  (has_own baseline k = Ok false \/
   exists ov bv, get_prop override k = Ok ov /\ get_prop baseline k = Ok bv /\ strict_eq ov bv = true) ->
  checkMetadataKeys true phetioID override baseline keys =
  Throw (AssertionError (api_error_msg phetioID RULE8)).
Proof.
  intros Hb Ho Hin Hviol. subst baseline override.
  induction keys as [|k' keys IH]; [destruct Hin|].
  cbn [checkMetadataKeys]. destruct Hin as [->|Hin].
  - destruct Hviol as [Hh|(ov & bv & Hov & Hbv & Heq)].
    + rewrite Hh. reflexivity.
    + cbn in Hov, Hbv |- *. injection Hov as <-. injection Hbv as <-.
      destruct (existsb (String.eqb k) (map fst bfs)); cbn; [|reflexivity].
      rewrite Heq. reflexivity.
  - cbn. destruct (existsb (String.eqb k') (map fst bfs)); cbn; [|reflexivity].
    destruct (strict_eq _ _); cbn; [reflexivity|]. exact (IH Hin).
Qed.

(** Claim C8 (amended). When the overrides file is checked at startup (validation
    enabled: [assert], [Tandem.VALIDATION] and all screens created), and every
    override entry before [phetioID] passed, the entry [phetioID] is reported as
    follows. If it is missing from the baseline, it is reported as a rule 3 API
    error when archetypes are created, and as a failed assertion when they are not
    and the id is not an archetype id; a missing archetype id is skipped when
    archetypes are not created. If it is in the baseline, an override with no
    metadata keys is reported as a rule 4 API error, and an override with a
    metadata key absent from the baseline record, or whose value is [===] the
    baseline value, is reported as a rule 8 API error. Each report is an assertion
    failure, which ends the validation. *)
Theorem overrides_violations_reported asserts VALIDATION allScreensCreated createArchetypes
    entireBaseline pre phetioID override post
    (Henabled : (asserts && VALIDATION) && allScreensCreated = true)
    (Hpre : validateOverridesFile true createArchetypes entireBaseline pre = Ok tt) :
  let r := onSimStarted asserts VALIDATION allScreensCreated createArchetypes entireBaseline
             (pre ++ (phetioID, override) :: post) in
  (inBaseline entireBaseline phetioID = false ->
     (createArchetypes = true -> r = Throw (AssertionError (api_error_msg phetioID RULE3))) /\
     (createArchetypes = false -> isArchetype phetioID = false ->
        r = Throw (AssertionError (missing_msg phetioID))) /\
     (createArchetypes = false -> isArchetype phetioID = true ->
        r = validateOverridesFile true createArchetypes entireBaseline post)) /\
  (forall baseline, assoc_lookup phetioID entireBaseline = Some baseline ->
     (object_keys override = Ok [] ->
        r = Throw (AssertionError (api_error_msg phetioID RULE4))) /\
     (forall bfs ofs k, baseline = JObj bfs -> override = JObj ofs -> In k (map fst ofs) ->
        (has_own baseline k = Ok false \/
         exists ov bv, get_prop override k = Ok ov /\ get_prop baseline k = Ok bv /\
                       strict_eq ov bv = true) ->
        r = Throw (AssertionError (api_error_msg phetioID RULE8)))).
Proof.
  assert (Ha : asserts = true) by (destruct asserts; [reflexivity|discriminate]).
  subst asserts. intro r. subst r. unfold onSimStarted. rewrite Henabled.
  rewrite validateOverridesFile_app, Hpre. cbn [bind validateOverridesFile].
  split.
  - intro Hnot. unfold validateOverride. rewrite Hnot.
    repeat split; intros Hc; subst createArchetypes; cbn; [reflexivity| |].
    + intros Harch. rewrite Harch. reflexivity.
    + intros Harch. rewrite Harch. reflexivity.
  - intros baseline Hlook. unfold validateOverride.
    rewrite (assoc_lookup_inBaseline _ _ _ Hlook), Hlook, andb_false_r. cbn [negb].
    split.
    + intros Hk. rewrite Hk. reflexivity.
    + intros bfs ofs k Hb Ho Hin Hviol.
      assert (Hkeys : object_keys override = Ok (map fst ofs)) by (subst override; reflexivity).
      rewrite Hkeys. cbn [bind].
      destruct (map fst ofs) as [|k0 ks] eqn:Hks; [destruct Hin|]. cbn [bind List.length Nat.eqb].
      rewrite <- Hks in Hin |- *.
      rewrite (checkMetadataKeys_reports phetioID override baseline bfs ofs (map fst ofs) k
                 Hb Ho Hin Hviol).
      reflexivity.
Qed.

(** Witness for C8: the first override passes (its value differs from the
    baseline), the second is a no-op override of the baseline value. *)
Definition c8_baseline : list (string * jsval) :=
  [("sim.a", JObj [("phetioFeatured", JBool false)]);
   ("sim.b", JObj [("phetioReadOnly", JBool true)])].

Lemma overrides_violations_reported_witness :
  validateOverridesFile true false c8_baseline [("sim.a", JObj [("phetioFeatured", JBool true)])] = Ok tt /\
  onSimStarted true true true false c8_baseline
    [("sim.a", JObj [("phetioFeatured", JBool true)]); ("sim.b", JObj [("phetioReadOnly", JBool true)])] =
  Throw (AssertionError (api_error_msg "sim.b" RULE8)).
Proof.
  split; [vm_compute; reflexivity|].
  refine (proj2 (proj2 (overrides_violations_reported true true true false c8_baseline
            [("sim.a", JObj [("phetioFeatured", JBool true)])] "sim.b"
            (JObj [("phetioReadOnly", JBool true)]) [] eq_refl
            ltac:(vm_compute; reflexivity))
            (JObj [("phetioReadOnly", JBool true)]) eq_refl)
            [("phetioReadOnly", JBool true)] [("phetioReadOnly", JBool true)] "phetioReadOnly"
            eq_refl eq_refl ltac:(cbn; left; reflexivity) _).
  right. exists (JBool true), (JBool true). repeat split.
Defined.

(** Counterexample to C8 as stated: with archetypes not created, an override id
    missing from the baseline is not reported when it names an archetype; the
    check passes. *)
Lemma archetype_override_missing_not_reported :
  inBaseline [] "sim.group.archetype.x" = false /\
  onSimStarted true true true false []
    [("sim.group.archetype.x", JObj [("phetioFeatured", JBool true)])] = Ok tt.
Proof. split; vm_compute; reflexivity. Qed.

End APIValidationProofs.

(** ** Tandem tree: phetioIDs, archetypes, disposal and group tandems *)

Section TandemOpsProofs.
Import Tandem TandemOps.

Lemma nth_error_replace_nth {A} (l : list A) i x j :
  nth_error (replace_nth l i x) j =
  if Nat.eqb i j then match nth_error l j with Some _ => Some x | None => None end
  else nth_error l j.
Proof.
  revert i j. induction l as [|y l IH]; intros i j.
  - destruct i, j; cbn; try reflexivity. destruct (Nat.eqb i j); reflexivity.
  - destruct i as [|i], j as [|j]; cbn; try reflexivity. apply IH.
Qed.

Lemma nth_error_snoc {A} (l : list A) x j :
  nth_error (app l [x]) j =
  if Nat.ltb j (List.length l) then nth_error l j
  else if Nat.eqb j (List.length l) then Some x else None.
Proof.
  destruct (Nat.ltb j (List.length l)) eqn:Hlt.
  - apply Nat.ltb_lt in Hlt. apply nth_error_app1; exact Hlt.
  - apply Nat.ltb_ge in Hlt. rewrite nth_error_app2 by exact Hlt.
    destruct (Nat.eqb j (List.length l)) eqn:He.
    + apply Nat.eqb_eq in He. subst j. rewrite Nat.sub_diag. reflexivity.
    + apply Nat.eqb_neq in He. destruct (j - List.length l)%nat as [|k] eqn:Hk; [lia|].
      destruct k; reflexivity.
Qed.

Lemma lookup_nth (h : heap) r t : lookup h r = Ok t <-> nth_error h r = Some t.
Proof.
  unfold lookup. destruct (nth_error h r); split; intro H; try discriminate; congruence.
Qed.

Lemma newChildTandem_shape asserts k h p n req sup h1 c :
  newChildTandem asserts k h p n req sup = Ok (h1, c) ->
  exists parent,
    nth_error h p = Some parent /\ c = List.length h /\
    h1 = replace_nth (app h [mkTandem (Some p) n (PhetioIDUtils_append (phetioID parent) n)
                               [] req sup false k]) p
           (with_children parent (assoc_set n (List.length h) (children parent))).
Proof.
  unfold newChildTandem, js_assert. intro H.
  destruct asserts; cbn in H.
  - destruct (termRegexTest k n); cbn in H; [|discriminate].
    destruct (String.eqb n METADATA_KEY); cbn in H; [discriminate|].
    destruct (lookup h p) as [parent|e] eqn:Hl; cbn in H; [|discriminate].
    unfold hasChildJS in H.
    destruct (hasChild parent "hasOwnProperty"); cbn in H; [discriminate|].
    destruct (hasChild parent n); cbn in H; [discriminate|].
    injection H as <- <-. exists parent. apply lookup_nth in Hl.
    repeat split; exact Hl.
  - destruct (lookup h p) as [parent|e] eqn:Hl; cbn in H; [|discriminate].
    injection H as <- <-. exists parent. apply lookup_nth in Hl.
    repeat split; exact Hl.
Qed.

Lemma createTandem_shape asserts VALIDATION h p n o h1 c :
  createTandem asserts VALIDATION h p n o = Ok (h1, c) ->
  exists parent, nth_error h p = Some parent /\
    ((h1 = h /\ assoc_lookup n (children parent) = Some c) \/
     (assoc_lookup n (children parent) = None /\
      newChildTandem asserts PlainTandem h p n
        (fst (getExtendedOptions parent o)) (snd (getExtendedOptions parent o)) = Ok (h1, c))).
Proof.
  unfold createTandem. intro H.
  destruct (lookup h p) as [parent|e] eqn:Hl; cbn in H; [|discriminate].
  exists parent. split; [apply lookup_nth; exact Hl|].
  destruct (rootCreateTandemCheck _ _ _ _); cbn in H; [|discriminate].
  unfold hasChildJS in H.
  destruct (hasChild parent "hasOwnProperty"); cbn in H; [discriminate|].
  unfold hasChild in H.
  destruct (assoc_lookup n (children parent)) as [c0|] eqn:Hc.
  - left. destruct (lookup h c0); cbn in H; [|discriminate].
    destruct (js_assert _ _ _); cbn in H; [|discriminate].
    destruct (js_assert _ _ _); cbn in H; [|discriminate].
    injection H as <- <-. split; reflexivity.
  - right. split; [reflexivity|exact H].
Qed.

Lemma newChildTandem_same_shape asserts k h p n req sup h1 c :
  newChildTandem asserts k h p n req sup = Ok (h1, c) ->
  exists parent, nth_error h p = Some parent /\ c = List.length h /\ same_shape h h1 /\
    nth_error h1 (List.length h) =
      Some (mkTandem (Some p) n (PhetioIDUtils_append (phetioID parent) n) [] req sup false k) /\
    nth_error h1 p = Some (with_children parent (assoc_set n (List.length h) (children parent))) /\
    List.length h1 = S (List.length h).
Proof.
  intro H. destruct (newChildTandem_shape _ _ _ _ _ _ _ _ _ H) as (parent & Hp & -> & ->).
  assert (Hplt : (p < List.length h)%nat) by (apply nth_error_Some; congruence).
  exists parent. split; [exact Hp|]. split; [reflexivity|]. split; [|split; [|split]].
  - intros i t Hi. assert (Hilt : (i < List.length h)%nat) by (apply nth_error_Some; congruence).
    rewrite nth_error_replace_nth, nth_error_snoc.
    replace (Nat.ltb i (List.length h)) with true by (symmetry; apply Nat.ltb_lt; exact Hilt).
    rewrite Hi. destruct (Nat.eqb p i) eqn:Hpi.
    + apply Nat.eqb_eq in Hpi. subst i. rewrite Hp in Hi. injection Hi as <-.
      eexists; split; [reflexivity|]. repeat split.
    + eexists; split; [reflexivity|]. repeat split.
  - rewrite nth_error_replace_nth, nth_error_snoc, Nat.ltb_irrefl, Nat.eqb_refl.
    replace (Nat.eqb p (List.length h)) with false by (symmetry; apply Nat.eqb_neq; lia).
    reflexivity.
  - rewrite nth_error_replace_nth, nth_error_snoc, Nat.eqb_refl.
    replace (Nat.ltb p (List.length h)) with true by (symmetry; apply Nat.ltb_lt; exact Hplt).
    rewrite Hp. reflexivity.
  - rewrite replace_nth_length, length_app. cbn. lia.
Qed.

Lemma newChildTandem_wf asserts k h p n req sup h1 c :
  tandem_wf h -> newChildTandem asserts k h p n req sup = Ok (h1, c) -> tandem_wf h1.
Proof.
  intros Hwf H.
  destruct (newChildTandem_same_shape _ _ _ _ _ _ _ _ _ H)
    as (parent & Hp & -> & Hsh & Hnew & Hpar & Hlen).
  assert (Hplt : (p < List.length h)%nat) by (apply nth_error_Some; congruence).
  intros i t Hi.
  destruct (Nat.lt_ge_cases i (List.length h)) as [Hilt|Hige].
  - destruct (nth_error h i) as [ti|] eqn:Hti; [|apply nth_error_None in Hti; lia].
    destruct (Hsh i ti Hti) as (t1 & Ht1 & Hpt & Hnm & Hid & _).
    rewrite Hi in Ht1. injection Ht1 as <-.
    pose proof (Hwf i ti Hti) as Hw. rewrite Hpt, Hid, Hnm.
    destruct (parentTandem ti) as [q|]; [|exact Hw].
    destruct Hw as (Hq & pt & Hpq & Hpid). split; [exact Hq|].
    destruct (Hsh q pt Hpq) as (pt1 & Hpt1 & _ & _ & Hpid1 & _).
    exists pt1. split; [exact Hpt1|]. rewrite Hpid1. exact Hpid.
  - assert (i = List.length h) as -> by (assert (i < List.length h1)%nat by
      (apply nth_error_Some; congruence); lia).
    rewrite Hnew in Hi. injection Hi as <-. cbn [parentTandem phetioID name].
    split; [exact Hplt|]. eexists; split; [exact Hpar|]. reflexivity.
Qed.

Lemma newChildTandem_static asserts h p n req sup h1 c :
  static_tree h -> newChildTandem asserts PlainTandem h p n req sup = Ok (h1, c) -> static_tree h1.
Proof.
  intros Hst H. destruct (newChildTandem_shape _ _ _ _ _ _ _ _ _ H) as (parent & Hp & -> & ->).
  unfold static_tree in *.
  assert (Hpk : kind parent <> DynamicTandem)
    by (rewrite Forall_forall in Hst; apply Hst; eapply nth_error_In; exact Hp).
  assert (Hrep : forall (l : heap) i x, Forall (fun t => kind t <> DynamicTandem) l ->
            kind x <> DynamicTandem -> Forall (fun t => kind t <> DynamicTandem) (replace_nth l i x)).
  { induction l as [|y l IH]; intros i x Hl Hx; destruct i; cbn; auto.
    - inversion Hl; subst. constructor; auto.
    - inversion Hl; subst. constructor; auto. }
  apply Hrep; [|exact Hpk].
  apply Forall_app. split; [exact Hst|]. constructor; [discriminate|constructor].
Qed.

Lemma archetypal_same_shape asserts h h1 fuel r a :
  same_shape h h1 -> archetypalPhetioID asserts fuel h r = Ok a ->
  archetypalPhetioID asserts fuel h1 r = Ok a.
Proof.
  intro Hsh. revert r a. induction fuel as [|f IH]; intros r a H; [discriminate|].
  cbn [archetypalPhetioID] in H |- *.
  destruct (lookup h r) as [t|e] eqn:Hl; cbn [bind] in H; [|discriminate].
  apply lookup_nth in Hl. destruct (Hsh r t Hl) as (t1 & Ht1 & Hp & Hn & Hid & Hk).
  assert (Hl1 : lookup h1 r = Ok t1) by (apply lookup_nth; exact Ht1).
  rewrite Hl1. cbn [bind]. rewrite Hk, Hp, Hn, Hid.
  destruct (kind t); destruct (parentTandem t) as [q|]; try exact H;
    (destruct (archetypalPhetioID asserts f h q) as [a'|e] eqn:Ha;
     [rewrite (IH q a' Ha); exact H
     |exfalso; destruct asserts; cbn in H; discriminate]).
Qed.

Lemma archetypal_fuel_S asserts h fuel r a :
  archetypalPhetioID asserts fuel h r = Ok a -> archetypalPhetioID asserts (S fuel) h r = Ok a.
Proof.
  revert r a. induction fuel as [|f IH]; intros r a H; [discriminate|].
  change (archetypalPhetioID asserts (S (S f)) h r) with
    (t <- lookup h r ;;
     match kind t with
     | DynamicTandem =>
         js_assert asserts (match parentTandem t with Some _ => true | None => false end)
           "Group elements must be in a Group" ;;
         match parentTandem t with
         | None => Throw (TypeError "Cannot read property getArchetypalPhetioID of null")
         | Some p =>
             a <- archetypalPhetioID asserts (S f) h p ;;
             Ok (PhetioIDUtils_append a APIValidation.DYNAMIC_ARCHETYPE_NAME)
         end
     | _ =>
         match parentTandem t with
         | Some p => a <- archetypalPhetioID asserts (S f) h p ;; Ok (PhetioIDUtils_append a (name t))
         | None => Ok (phetioID t)
         end
     end).
  cbn [archetypalPhetioID] in H.
  destruct (lookup h r) as [t|e]; cbn [bind] in H |- *; [|discriminate].
  destruct (kind t); destruct (parentTandem t) as [q|]; try exact H;
    (destruct (archetypalPhetioID asserts f h q) as [a'|e] eqn:Ha;
     [rewrite (IH q a' Ha); exact H
     |exfalso; destruct asserts; cbn in H; discriminate]).
Qed.

Lemma archetypal_fuel_le asserts h fuel fuel' r a :
  (fuel <= fuel')%nat -> archetypalPhetioID asserts fuel h r = Ok a ->
  archetypalPhetioID asserts fuel' h r = Ok a.
Proof.
  intros Hle H. induction Hle; [exact H|]. apply archetypal_fuel_S; exact IHHle.
Qed.

Lemma archetypal_static_aux asserts h fuel :
  tandem_wf h -> static_tree h ->
  forall r t, (r < fuel)%nat -> nth_error h r = Some t ->
  archetypalPhetioID asserts fuel h r = Ok (phetioID t).
Proof.
  intros Hwf Hst. induction fuel as [|f IH]; intros r t Hr Ht; [lia|].
  cbn [archetypalPhetioID].
  assert (Hl : lookup h r = Ok t) by (apply lookup_nth; exact Ht). rewrite Hl. cbn [bind].
  assert (Hk : kind t <> DynamicTandem)
    by (unfold static_tree in Hst; rewrite Forall_forall in Hst; apply Hst;
        eapply nth_error_In; exact Ht).
  pose proof (Hwf r t Ht) as Hw.
  destruct (kind t); [| |contradiction];
    (destruct (parentTandem t) as [q|]; [|reflexivity]);
    destruct Hw as (Hq & pt & Hpt & Hid);
    rewrite (IH q pt ltac:(lia) Hpt); cbn [bind]; rewrite Hid; reflexivity.
Qed.

Lemma sim_heap_wf : tandem_wf sim_heap.
Proof.
  intros i t Hi. destruct i as [|[|i]]; cbn in Hi.
  - injection Hi as <-. reflexivity.
  - injection Hi as <-. cbn. split; [lia|]. exists ROOT. split; reflexivity.
  - destruct i; discriminate.
Qed.

Lemma sim_heap_static : static_tree sim_heap.
Proof. repeat constructor; discriminate. Qed.

Lemma assoc_lookup_delete {A} (k : string) (l : list (string * A)) :
  assoc_lookup k (assoc_delete k l) = None.
Proof.
  induction l as [|[k' v] l IH]; cbn; [reflexivity|].
  destruct (String.eqb k k') eqn:E; [exact IH|]. cbn. rewrite E. exact IH.
Qed.

Lemma newChildTandem_ok asserts k h p parent n req sup :
  nth_error h p = Some parent -> termRegexTest k n = true ->
  String.eqb n METADATA_KEY = false -> hasChild parent n = false ->
  hasChild parent "hasOwnProperty" = false ->
  newChildTandem asserts k h p n req sup =
  Ok (replace_nth (app h [mkTandem (Some p) n (PhetioIDUtils_append (phetioID parent) n)
                            [] req sup false k]) p
        (with_children parent (assoc_set n (List.length h) (children parent))),
      List.length h).
Proof.
  intros Hp Hre Hmd Hc Hhop. unfold newChildTandem.
  assert (Hl : lookup h p = Ok parent) by (apply lookup_nth; exact Hp).
  rewrite Hre, Hmd, Hl. destruct asserts; cbn [js_assert bind andb negb].
  all: try (unfold hasChildJS; rewrite Hhop, Hc); reflexivity.
Qed.

(** Extra: [createTandem] keeps the tandem tree well formed: a parent is
    allocated before its children, a root's phetioID is its name and every other
    tandem's phetioID is its parent's phetioID appended with its name; and it
    never creates a DynamicTandem. *)
Theorem createTandem_keeps_phetioID_paths asserts VALIDATION h p n o h1 c :
  tandem_wf h -> createTandem asserts VALIDATION h p n o = Ok (h1, c) ->
  tandem_wf h1 /\ (static_tree h -> static_tree h1).
Proof.
  intros Hwf H.
  destruct (createTandem_shape _ _ _ _ _ _ _ _ H) as (parent & Hp & [[-> _] | [_ Hn]]).
  - split; [exact Hwf|exact (fun Hs => Hs)].
  - split; [exact (newChildTandem_wf _ _ _ _ _ _ _ _ _ Hwf Hn)|].
    intro Hs. exact (newChildTandem_static _ _ _ _ _ _ _ _ Hs Hn).
Qed.

Lemma createTandem_keeps_phetioID_paths_witness :
  tandem_wf (fst sim_x) /\ static_tree (fst sim_x).
Proof.
  destruct (createTandem_keeps_phetioID_paths true true sim_heap 1%nat "x" (flags true true)
              (fst sim_x) (snd sim_x) sim_heap_wf ltac:(vm_compute; reflexivity)) as [Hw Hs].
  split; [exact Hw|exact (Hs sim_heap_static)].
Defined.

(** Extra: in a well-formed tree of static tandems (no DynamicTandem),
    [getArchetypalPhetioID] of every tandem is its own phetioID. *)
Theorem getArchetypalPhetioID_static asserts h r t :
  tandem_wf h -> static_tree h -> nth_error h r = Some t ->
  getArchetypalPhetioID asserts h r = Ok (phetioID t).
Proof.
  intros Hwf Hst Ht. unfold getArchetypalPhetioID.
  apply archetypal_static_aux; [exact Hwf|exact Hst|lia|exact Ht].
Qed.

Lemma getArchetypalPhetioID_static_witness :
  getArchetypalPhetioID true sim_heap 1 = Ok "sim.test".
Proof.
  exact (getArchetypalPhetioID_static true sim_heap 1%nat ROOT_TEST
           sim_heap_wf sim_heap_static eq_refl).
Defined.

(** Extra: a dynamic element's new tandem (created by [createDynamicElement]
    under a container tandem that has no child of that name) is a DynamicTandem
    whose phetioID is the container's phetioID appended with the element's name,
    while its archetypal phetioID is the container's archetypal phetioID appended
    with [archetype], whatever the element's name. *)
Theorem dynamic_element_archetypal asserts VALIDATION h p parent n a h1 d :
  nth_error h p = Some parent -> hasChild parent n = false ->
  getArchetypalPhetioID asserts h p = Ok a ->
  createDynamicElementTandem asserts VALIDATION h p n = Ok (h1, d) ->
  (exists t, nth_error h1 d = Some t /\ kind t = DynamicTandem /\
             phetioID t = PhetioIDUtils_append (phetioID parent) n) /\
  getArchetypalPhetioID asserts h1 d =
    Ok (PhetioIDUtils_append a APIValidation.DYNAMIC_ARCHETYPE_NAME).
Proof.
  intros Hp Hc Ha H. unfold createDynamicElementTandem in H.
  assert (Hl : lookup h p = Ok parent) by (apply lookup_nth; exact Hp).
  rewrite Hl in H. cbn [bind] in H. unfold hasChildJS in H.
  destruct (hasChild parent "hasOwnProperty"); cbn [bind] in H; [discriminate|].
  rewrite Hc in H. cbn in H.
  destruct (newChildTandem_same_shape _ _ _ _ _ _ _ _ _ H)
    as (parent' & Hp' & -> & Hsh & Hnew & _ & _).
  rewrite Hp in Hp'. injection Hp' as <-.
  assert (Hplt : (p < List.length h)%nat) by (apply nth_error_Some; congruence).
  split.
  - eexists. split; [exact Hnew|]. split; reflexivity.
  - unfold getArchetypalPhetioID. cbn [archetypalPhetioID].
    assert (Hl1 : lookup h1 (List.length h) =
              Ok (mkTandem (Some p) n (PhetioIDUtils_append (phetioID parent) n) []
                    (required parent) (supplied parent) false DynamicTandem))
      by (apply lookup_nth; exact Hnew).
    rewrite Hl1. cbn [bind kind parentTandem]. rewrite js_assert_pass by (intros; reflexivity). cbn [bind].
    unfold getArchetypalPhetioID in Ha.
    rewrite (archetypal_fuel_le asserts h1 (S p) (List.length h) p a ltac:(lia)
               (archetypal_same_shape asserts h h1 (S p) p a Hsh Ha)).
    reflexivity.
Qed.

Lemma dynamic_element_archetypal_witness :
  getArchetypalPhetioID true (fst sim_particle) (snd sim_particle) = Ok "sim.test.archetype".
Proof.
  exact (proj2 (dynamic_element_archetypal true true sim_heap 1%nat ROOT_TEST "particle_0"
                  "sim.test" (fst sim_particle) (snd sim_particle)
                  eq_refl eq_refl ltac:(vm_compute; reflexivity) ltac:(vm_compute; reflexivity))).
Defined.

(** Extra: disposing a tandem [c] whose parent is [p] marks it disposed (a
    second [dispose] fails its assertion), removes it from its parent's
    children, and a later [createTandem] of the same name under [p] creates a new
    tandem instead of returning the disposed one. *)
Theorem dispose_frees_name asserts VALIDATION h c t p h1 :
  nth_error h c = Some t -> parentTandem t = Some p -> dispose asserts h c = Ok h1 ->
  (exists t1, nth_error h1 c = Some t1 /\ isDisposed t1 = true) /\
  dispose true h1 c = Throw (AssertionError "already disposed") /\
  (exists pt, nth_error h1 p = Some pt /\ hasChild pt (name t) = false) /\
  (forall o h2 c2, createTandem asserts VALIDATION h1 p (name t) o = Ok (h2, c2) ->
                   c2 = List.length h /\ c2 <> c).
Proof.
  intros Ht Hpar H.
  assert (Hclt : (c < List.length h)%nat) by (apply nth_error_Some; congruence).
  unfold dispose in H. rewrite (proj2 (lookup_nth h c t) Ht) in H. cbn [bind] in H.
  destruct (js_assert _ _ _); cbn [bind] in H; [|discriminate].
  rewrite Hpar in H.
  destruct (removeChild asserts h p (name t)) as [h1'|e] eqn:Hr; cbn [bind] in H; [|discriminate].
  destruct (lookup h1' c) as [t1|e] eqn:Ht1; cbn [bind] in H; [|discriminate].
  injection H as <-. apply lookup_nth in Ht1.
  unfold removeChild in Hr.
  destruct (lookup h p) as [parent|e] eqn:Hlp; cbn [bind] in Hr; [|discriminate].
  apply bind_ok_inv in Hr as [[] [_ Hr]]. injection Hr as <-.
  apply lookup_nth in Hlp.
  set (cs := assoc_delete (name t) (children parent)) in *.
  assert (Hc1 : nth_error (replace_nth (replace_nth h p (with_children parent cs)) c (with_disposed t1)) c
                = Some (with_disposed t1))
    by (rewrite nth_error_replace_nth, Nat.eqb_refl, Ht1; reflexivity).
  assert (Hp1 : exists pt, nth_error (replace_nth (replace_nth h p (with_children parent cs)) c
                                        (with_disposed t1)) p = Some pt /\ children pt = cs).
  { rewrite nth_error_replace_nth. destruct (Nat.eqb c p) eqn:Hcp.
    - apply Nat.eqb_eq in Hcp. subst c. rewrite Ht1. eexists; split; [reflexivity|].
      rewrite nth_error_replace_nth, Nat.eqb_refl, Hlp in Ht1. injection Ht1 as <-. reflexivity.
    - rewrite nth_error_replace_nth, Nat.eqb_refl, Hlp. eexists; split; reflexivity. }
  destruct Hp1 as (pt & Hpt & Hcs).
  assert (Hnone : assoc_lookup (name t) (children pt) = None)
    by (rewrite Hcs; apply assoc_lookup_delete).
  split; [|split; [|split]].
  - eexists; split; [exact Hc1|reflexivity].
  - unfold dispose. rewrite (proj2 (lookup_nth _ c _) Hc1). reflexivity.
  - exists pt. split; [exact Hpt|]. unfold hasChild. rewrite Hnone. reflexivity.
  - intros o h2 c2 Hcr.
    destruct (createTandem_shape _ _ _ _ _ _ _ _ Hcr) as (pt' & Hpt' & [[_ Hsome] | [_ Hn]]).
    + rewrite Hpt in Hpt'. injection Hpt' as <-. rewrite Hnone in Hsome. discriminate.
    + destruct (newChildTandem_shape _ _ _ _ _ _ _ _ _ Hn) as (? & _ & -> & _).
      rewrite !replace_nth_length. split; [reflexivity|lia].
Qed.

Lemma dispose_frees_name_witness :
  dispose true sim_test_disposed 1 = Throw (AssertionError "already disposed").
Proof.
  exact (proj1 (proj2 (dispose_frees_name true true sim_heap 1%nat ROOT_TEST 0%nat sim_test_disposed
                         eq_refl eq_refl ltac:(vm_compute; reflexivity)))).
Defined.

(** Extra: [createGroupTandem] with a new, well-formed name that is not a
    member of Object.prototype (under a parent with no child named
    [hasOwnProperty]) creates a child that is required and supplied whatever the
    parent's flags, and without the root tandem's allow-list check; for a new
    name that is a member of Object.prototype ([toString], [valueOf],
    [constructor], ...), [this.children[ name ]] is the inherited member, which
    it returns, creating nothing. *)
Theorem createGroupTandem_required_supplied asserts h p parent :
  nth_error h p = Some parent ->
  (forall n,
     hasChild parent n = false -> hasChild parent "hasOwnProperty" = false ->
     existsb (String.eqb n) OBJECT_PROTOTYPE_KEYS = false ->
     termRegexTest PlainTandem n = true -> String.eqb n METADATA_KEY = false ->
     exists h1 g, createGroupTandem asserts h p n = Ok (h1, ChildTandem (List.length h)) /\
       nth_error h1 (List.length h) = Some g /\ required g = true /\ supplied g = true /\
       parentTandem g = Some p /\ phetioID g = PhetioIDUtils_append (phetioID parent) n) /\
  (forall n,
     hasChild parent n = false -> existsb (String.eqb n) OBJECT_PROTOTYPE_KEYS = true ->
     createGroupTandem asserts h p n = Ok (h, InheritedMember n)).
Proof.
  intros Hp.
  assert (Hplt : (p < List.length h)%nat) by (apply nth_error_Some; congruence).
  unfold createGroupTandem. rewrite (proj2 (lookup_nth h p parent) Hp). cbn [bind].
  split.
  - intros n Hc Hhop Hproto Hre Hmd.
    pose proof Hc as Hc'. unfold hasChild in Hc'.
    destruct (assoc_lookup n (children parent)); [discriminate|].
    rewrite Hproto.
    rewrite (newChildTandem_ok asserts PlainTandem h p parent n true true Hp Hre Hmd Hc Hhop).
    cbn [bind fst snd].
    do 2 eexists. split; [reflexivity|].
    rewrite nth_error_replace_nth, nth_error_snoc, Nat.ltb_irrefl, Nat.eqb_refl.
    replace (Nat.eqb p (List.length h)) with false by (symmetry; apply Nat.eqb_neq; lia).
    split; [reflexivity|]. repeat split.
  - intros n Hc Hproto.
    unfold hasChild in Hc.
    destruct (assoc_lookup n (children parent)); [discriminate|].
    rewrite Hproto. reflexivity.
Qed.

Lemma createGroupTandem_required_supplied_witness :
  (exists h1 g, createGroupTandem true sim_heap 0 "particleGroup" = Ok (h1, ChildTandem 2) /\
    nth_error h1 2 = Some g /\ required g = true /\ supplied g = true /\
    parentTandem g = Some 0%nat /\ phetioID g = PhetioIDUtils_append "sim" "particleGroup") /\
  createGroupTandem true sim_heap 0 "toString" = Ok (sim_heap, InheritedMember "toString").
Proof.
  destruct (createGroupTandem_required_supplied true sim_heap 0%nat ROOT eq_refl) as [Hnew Hinh].
  split.
  - exact (Hnew "particleGroup" eq_refl eq_refl eq_refl eq_refl eq_refl).
  - exact (Hinh "toString" eq_refl eq_refl).
Defined.

Lemma string_append_assoc (a b c : string) : ((a ++ b) ++ c)%string = (a ++ (b ++ c))%string.
Proof. induction a as [|x a IH]; cbn; [reflexivity|rewrite IH; reflexivity]. Qed.

Lemma hasAncestorAux_wf h a :
  tandem_wf h ->
  forall fuel r t, (r < fuel)%nat -> nth_error h r = Some t ->
  exists b, hasAncestorAux fuel h r a = Ok b /\
    (b = true -> (a < r)%nat /\
                 exists ta suffix, nth_error h a = Some ta /\
                                   phetioID t = (phetioID ta ++ "." ++ suffix)%string).
Proof.
  intros Hwf fuel. induction fuel as [|f IH]; intros r t Hr Ht; [lia|].
  cbn [hasAncestorAux]. rewrite (proj2 (lookup_nth h r t) Ht). cbn [bind].
  pose proof (Hwf r t Ht) as Hw.
  destruct (parentTandem t) as [p|].
  - destruct Hw as (Hp & pt & Hpt & Hid).
    destruct (Nat.eqb p a) eqn:Hpa.
    + apply Nat.eqb_eq in Hpa; subst p.
      exists true; split; [reflexivity|]. intros _. split; [exact Hp|].
      exists pt, (name t). split; [exact Hpt|exact Hid].
    + destruct (IH p pt ltac:(lia) Hpt) as (b & Hb & Hbt).
      exists b; split; [exact Hb|]. intros Hb'.
      destruct (Hbt Hb') as (Hap & ta & suf & Hta & Hidp).
      split; [lia|]. exists ta, (suf ++ "." ++ name t)%string. split; [exact Hta|].
      rewrite Hid. unfold PhetioIDUtils_append. rewrite Hidp, !string_append_assoc. reflexivity.
  - exists false; split; [reflexivity|discriminate].
Qed.

(** Extra: in a tree where every tandem's phetioID is its parent's phetioID,
    ['.'] and its name (as [createTandem] keeps it), [hasAncestor] answers for
    every tandem, and when it answers yes the ancestor comes earlier in the tree
    (no tandem is its own ancestor) and the tandem's phetioID is the ancestor's
    phetioID followed by ['.'] and more. *)
Theorem hasAncestor_extends_phetioID h r a t :
  tandem_wf h -> nth_error h r = Some t ->
  exists b, hasAncestor h r a = Ok b /\
    (b = true -> (a < r)%nat /\
                 exists ta suffix, nth_error h a = Some ta /\
                                   phetioID t = (phetioID ta ++ "." ++ suffix)%string).
Proof.
  intros Hwf Ht. apply (hasAncestorAux_wf h a Hwf (S r) r t); [lia|exact Ht].
Qed.

Lemma hasAncestor_extends_phetioID_witness :
  exists b, hasAncestor sim_heap 1 0 = Ok b /\
    (b = true -> (0 < 1)%nat /\
                 exists ta suffix, nth_error sim_heap 0 = Some ta /\
                                   phetioID ROOT_TEST = (phetioID ta ++ "." ++ suffix)%string).
Proof.
  exact (hasAncestor_extends_phetioID sim_heap 1 0 ROOT_TEST sim_heap_wf eq_refl).
Defined.
End TandemOpsProofs.

(** ** Properties of registration and removal of PhetioObjects *)

Section RegistrationOpsProofs.

Import Registration RegistrationOps Tandem TandemOps.

Lemma addPhetioObject_cases asserts VALIDATION o st :
  (asserts && VALIDATION = true -> po_required o && negb (po_supplied o) = false) ->
  addPhetioObject asserts true VALIDATION o st =
  if po_required o || po_supplied o then
    if launched st then Ok (notify_all st o)
    else Ok (set_buffer st (app (bufferedPhetioObjects st) [o]))
  else Ok st.
Proof.
  intros H; unfold addPhetioObject.
  rewrite js_assert_pass by (intros Ha; rewrite (H Ha); reflexivity); cbn [bind].
  destruct (po_required o), (po_supplied o), (launched st); reflexivity.
Qed.

Lemma registerAll_filter asserts VALIDATION os :
  Forall (fun o => asserts && VALIDATION = true -> po_required o && negb (po_supplied o) = false) os ->
  forall b ls ns,
    registerAll asserts true VALIDATION os (mkRegistry false b ls ns) =
    Ok (mkRegistry false (app b (filter (fun o => po_required o || po_supplied o) os)) ls ns).
Proof.
  induction 1 as [|o os Ho Hos IH]; intros b ls ns; cbn [registerAll filter].
  - rewrite app_nil_r; reflexivity.
  - rewrite addPhetioObject_cases by exact Ho.
    destruct (po_required o || po_supplied o); cbn [launched bind negb].
    + unfold set_buffer; cbn [bufferedPhetioObjects phetioObjectListeners notifications].
      rewrite IH, <- app_assoc; reflexivity.
    + apply IH.
Qed.

Lemma registerAll_launched_filter asserts VALIDATION os :
  Forall (fun o => asserts && VALIDATION = true -> po_required o && negb (po_supplied o) = false) os ->
  forall ls ns,
    registerAll asserts true VALIDATION os (mkRegistry true [] ls ns) =
    Ok (mkRegistry true [] ls
          (app ns (listener_calls ls (filter (fun o => po_required o || po_supplied o) os)))).
Proof.
  induction 1 as [|o os Ho Hos IH]; intros ls ns; cbn [registerAll filter].
  - rewrite app_nil_r; reflexivity.
  - rewrite addPhetioObject_cases by exact Ho.
    destruct (po_required o || po_supplied o); cbn [launched bind].
    + unfold notify_all; cbn [bufferedPhetioObjects phetioObjectListeners notifications launched].
      rewrite IH, <- app_assoc; reflexivity.
    + apply IH.
Qed.

Lemma flushBuffer_filtered asserts VALIDATION b :
  Forall (fun o => (po_required o || po_supplied o) = true /\
                   (asserts && VALIDATION = true -> po_required o && negb (po_supplied o) = false)) b ->
  forall ls ns,
    flushBuffer asserts true VALIDATION (List.length b) (mkRegistry true b ls ns) =
    Ok (mkRegistry true [] ls (app ns (listener_calls ls b))).
Proof.
  induction 1 as [|o b [Hd Ho] Hb IH]; intros ls ns; cbn [flushBuffer List.length].
  - rewrite app_nil_r; reflexivity.
  - cbn [bufferedPhetioObjects].
    rewrite addPhetioObject_cases by exact Ho; rewrite Hd; cbn [launched set_buffer bind].
    unfold notify_all; cbn [bufferedPhetioObjects phetioObjectListeners notifications launched].
    rewrite IH, <- app_assoc; reflexivity.
Qed.

Lemma indexOfObject_snoc b o :
  indexOfObject b o = None -> indexOfObject (app b [o]) o = Some (List.length b).
Proof.
  induction b as [|x b IH]; cbn [indexOfObject app List.length]; intros H.
  - unfold same_object; rewrite Nat.eqb_refl; reflexivity.
  - destruct (same_object x o); [discriminate|].
    destruct (indexOfObject b o); [discriminate|]. rewrite IH by reflexivity; reflexivity.
Qed.

Lemma remove_at_snoc {A} (b : list A) (x : A) :
  Dynamic.remove_at (app b [x]) (List.length b) = b.
Proof.
  induction b as [|y b IH]; [reflexivity|]. cbn [app List.length].
  destruct b; cbn in *; [reflexivity|]. rewrite IH; reflexivity.
Qed.

(** Extra: with PhET-iO enabled, registering objects in order, before or after
    [launch()], delivers to the listeners exactly the objects whose tandem is
    required or supplied, in registration order; objects with an optional,
    unsupplied tandem are never buffered nor delivered.  With assertions and
    validation on, no object may have a required but unsupplied tandem. *)
Theorem registration_delivers_required_or_supplied asserts VALIDATION os ls ns :
  Forall (fun o => asserts && VALIDATION = true -> po_required o && negb (po_supplied o) = false) os ->
  let kept := filter (fun o => po_required o || po_supplied o) os in
  registerAll asserts true VALIDATION os (mkRegistry false [] ls ns) =
    Ok (mkRegistry false kept ls ns) /\
  launch asserts true VALIDATION (mkRegistry false kept ls ns) =
    Ok (mkRegistry true [] ls (app ns (listener_calls ls kept))) /\
  registerAll asserts true VALIDATION os (mkRegistry true [] ls ns) =
    Ok (mkRegistry true [] ls (app ns (listener_calls ls kept))).
Proof.
  intros Hos kept. split; [|split].
  - apply (registerAll_filter _ _ _ Hos).
  - unfold launch. cbn [launched bufferedPhetioObjects phetioObjectListeners notifications].
    rewrite js_assert_pass by (intros; reflexivity); cbn [bind].
    rewrite flushBuffer_filtered; cbn [bind].
    + rewrite js_assert_pass by (intros; reflexivity); reflexivity.
    + unfold kept. clear kept. induction Hos as [|o os Ho Hos IH]; cbn [filter]; [constructor|].
      destruct (po_required o || po_supplied o) eqn:Hd; [|exact IH].
      constructor; [split; assumption|exact IH].
  - apply (registerAll_launched_filter _ _ _ Hos).
Qed.

Lemma registration_delivers_required_or_supplied_witness :
  let os := [mkPhetioObject 1 true true; mkPhetioObject 2 false false;
             mkPhetioObject 3 false true] in
  registerAll true true true os (mkRegistry false [] [7%nat] []) =
    Ok (mkRegistry false [mkPhetioObject 1 true true; mkPhetioObject 3 false true] [7%nat] []) /\
  launch true true true
    (mkRegistry false [mkPhetioObject 1 true true; mkPhetioObject 3 false true] [7%nat] []) =
    Ok (mkRegistry true [] [7%nat]
          [(7%nat, mkPhetioObject 1 true true); (7%nat, mkPhetioObject 3 false true)]) /\
  registerAll true true true os (mkRegistry true [] [7%nat] []) =
    Ok (mkRegistry true [] [7%nat]
          [(7%nat, mkPhetioObject 1 true true); (7%nat, mkPhetioObject 3 false true)]).
Proof.
  intros os.
  exact (registration_delivers_required_or_supplied true true os [7%nat] []
           ltac:(repeat apply Forall_cons; try apply Forall_nil; intros; reflexivity)).
Defined.

(** Extra: before [launch()], adding a PhetioObject not yet buffered and then
    removing it leaves the module state as it was (the buffer included), tells no
    listener of either, and disposes the object's tandem. *)
Theorem add_remove_before_launch asserts VALIDATION o r w st1 h1 :
  launched (reg w) = false ->
  indexOfObject (bufferedPhetioObjects (reg w)) o = None ->
  (po_required o || po_supplied o) = true ->
  addPhetioObject asserts true VALIDATION o (reg w) = Ok st1 ->
  TandemOps.dispose asserts (tandems w) r = Ok h1 ->
  removePhetioObject asserts true o r (mkWorld st1 (removals w) (tandems w)) =
    Ok (mkWorld (reg w) (removals w) h1).
Proof.
  destruct w as [[la b ls ns] rm hp]; cbn [reg tandems removals launched bufferedPhetioObjects].
  intros Hl Hi Hd Hadd Hdisp; subst la.
  assert (Hd' : negb (po_required o) && negb (po_supplied o) = false)
    by (destruct (po_required o), (po_supplied o); cbn in *; congruence).
  unfold addPhetioObject in Hadd.
  destruct (js_assert _ _ _); cbn [bind] in Hadd; [|discriminate].
  rewrite Hd' in Hadd; cbn in Hadd. injection Hadd as <-.
  unfold removePhetioObject; rewrite Hd'; cbn [negb reg launched bufferedPhetioObjects tandems removals].
  unfold set_buffer; cbn [launched bufferedPhetioObjects phetioObjectListeners notifications negb].
  rewrite (indexOfObject_snoc _ _ Hi).
  rewrite js_assert_pass by (intros; reflexivity); cbn [bind].
  unfold arrayRemoveObject; rewrite (indexOfObject_snoc _ _ Hi); cbn [bind].
  rewrite remove_at_snoc; cbn [reg removals tandems launched bufferedPhetioObjects
                               phetioObjectListeners notifications].
  rewrite Hdisp; reflexivity.
Qed.

Lemma add_remove_before_launch_witness :
  removePhetioObject true true (mkPhetioObject 5 true true) 1
    (mkWorld (mkRegistry false [mkPhetioObject 4 true true; mkPhetioObject 5 true true] [] [])
             [] sim_heap) =
  Ok (mkWorld (mkRegistry false [mkPhetioObject 4 true true] [] []) [] sim_test_disposed).
Proof.
  exact (add_remove_before_launch true true (mkPhetioObject 5 true true) 1%nat
           (mkWorld (mkRegistry false [mkPhetioObject 4 true true] [] []) [] sim_heap)
           _ sim_test_disposed eq_refl eq_refl eq_refl eq_refl ltac:(vm_compute; reflexivity)).
Defined.

(** Extra: after [launch()], adding a PhetioObject and then removing it calls
    [addPhetioObject] and then [removePhetioObject] with it on every listener, in
    the listeners' order, and disposes the object's tandem; the buffer stays as
    it was. *)
Theorem add_remove_after_launch asserts VALIDATION o r w h1 :
  launched (reg w) = true ->
  (po_required o || po_supplied o) = true ->
  (asserts && VALIDATION = true -> po_required o && negb (po_supplied o) = false) ->
  TandemOps.dispose asserts (tandems w) r = Ok h1 ->
  exists st1,
    addPhetioObject asserts true VALIDATION o (reg w) = Ok st1 /\
    bufferedPhetioObjects st1 = bufferedPhetioObjects (reg w) /\
    notifications st1 = app (notifications (reg w))
                            (map (fun l => (l, o)) (phetioObjectListeners (reg w))) /\
    removePhetioObject asserts true o r (mkWorld st1 (removals w) (tandems w)) =
      Ok (mkWorld st1 (app (removals w) (map (fun l => (l, o)) (phetioObjectListeners (reg w)))) h1).
Proof.
  destruct w as [[la b ls ns] rm hp]; cbn [reg tandems removals launched bufferedPhetioObjects
                                          notifications phetioObjectListeners].
  intros Hl Hd Ha Hdisp; subst la.
  rewrite addPhetioObject_cases by exact Ha. rewrite Hd; cbn [launched].
  eexists; split; [reflexivity|]. unfold notify_all; cbn [launched bufferedPhetioObjects
                                                         phetioObjectListeners notifications].
  split; [reflexivity|]. split; [reflexivity|].
  assert (Hd' : negb (po_required o) && negb (po_supplied o) = false)
    by (destruct (po_required o), (po_supplied o); cbn in *; congruence).
  unfold removePhetioObject; rewrite Hd'; cbn [negb reg launched bufferedPhetioObjects
                                               phetioObjectListeners tandems removals bind].
  rewrite Hdisp; reflexivity.
Qed.

Lemma add_remove_after_launch_witness :
  exists st1,
    addPhetioObject true true true (mkPhetioObject 5 true true) (mkRegistry true [] [7%nat; 8%nat] []) = Ok st1 /\
    bufferedPhetioObjects st1 = [] /\
    notifications st1 = [(7%nat, mkPhetioObject 5 true true); (8%nat, mkPhetioObject 5 true true)] /\
    removePhetioObject true true (mkPhetioObject 5 true true) 1 (mkWorld st1 [] sim_heap) =
      Ok (mkWorld st1 [(7%nat, mkPhetioObject 5 true true); (8%nat, mkPhetioObject 5 true true)]
                  sim_test_disposed).
Proof.
  exact (add_remove_after_launch true true (mkPhetioObject 5 true true) 1%nat
           (mkWorld (mkRegistry true [] [7%nat; 8%nat] []) [] sim_heap) sim_test_disposed
           eq_refl eq_refl (fun _ => eq_refl) ltac:(vm_compute; reflexivity)).
Defined.

End RegistrationOpsProofs.

(** ** Further properties of groups and capsules *)

Section DynamicOpsProofs.

Import Dynamic DynamicOps.

Lemma clearLoop_all asserts a :
  forall dc dd de ev gi cnt nid,
  (asserts = true -> NoDup (map el_id a) /\
                     Forall (fun e => existsb (Nat.eqb (el_id e)) de = false) a) ->
  clearLoop asserts (List.length a) (mkGroup (mkContainer false dc dd de ev) a gi cnt nid) =
  Ok (mkGroup (mkContainer false dc dd (app de (map el_id a)) (app ev (clear_events a))) []
        gi (match a with [] => cnt | _ => 0%nat end) nid).
Proof.
  induction a as [|e rest IH]; intros dc dd de ev gi cnt nid H.
  - cbn; rewrite !app_nil_r; reflexivity.
  - cbn [List.length clearLoop _array]. unfold groupDisposeElement, isDisposedElement.
    cbn [gcontainer disposedElements].
    rewrite js_assert_pass
      by (intros Ha; destruct (H Ha) as [_ HF]; inversion HF; subst;
          match goal with Hx : existsb _ _ = false |- _ => rewrite Hx end; reflexivity).
    cbn [bind]. unfold arrayRemove; cbn [_array indexOf]; unfold same_element; rewrite Nat.eqb_refl.
    cbn [bind remove_at]. unfold set_array; cbn [gcontainer groupElementIndex countProperty nextElementId].
    rewrite setCountProperty_length; cbn [bind _array gcontainer groupElementIndex nextElementId].
    unfold containerDisposeElement, disposeElementObject, emitDisposed, logEvent, group_observe,
      group_setC; cbn.
    rewrite IH.
    + rewrite <- !app_assoc. destruct rest; reflexivity.
    + intros Ha; destruct (H Ha) as [Hnd HF]; inversion Hnd; inversion HF; subst; split; [assumption|].
      rewrite Forall_forall; intros x Hx.
      rewrite existsb_app; cbn [existsb].
      match goal with Hf : Forall _ rest |- _ => rewrite (proj1 (Forall_forall _ _) Hf x Hx) end.
      replace (Nat.eqb (el_id x) (el_id e)) with false; [reflexivity|].
      symmetry; apply Nat.eqb_neq; intros Heq.
      match goal with Hn : ~ In (el_id e) _ |- _ => apply Hn end.
      rewrite <- Heq; apply in_map; exact Hx.
Qed.

(** Extra: [clear()] on a group whose notifications are not deferred disposes
    every element, first to last, each disposal followed by its notification,
    both observing a count equal to the remaining length; it leaves the array
    empty, the count 0 (unchanged if the array was empty) and, with
    [resetIndex], the index counter 0.  With assertions it requires the
    elements to be distinct and not yet disposed. *)
Theorem group_clear_disposes_all asserts resetIndex g :
  notificationsDeferred (gcontainer g) = false ->
  (asserts = true -> NoDup (map el_id (_array g)) /\
                     Forall (fun e => isDisposedElement (gcontainer g) e = false) (_array g)) ->
  exists g', clear asserts resetIndex g = Ok g' /\
    _array g' = [] /\
    countProperty g' = match _array g with [] => countProperty g | _ => 0%nat end /\
    groupElementIndex g' = (if resetIndex then 0%nat else groupElementIndex g) /\
    disposedElements (gcontainer g') = app (disposedElements (gcontainer g)) (map el_id (_array g)) /\
    events (gcontainer g') = app (events (gcontainer g)) (clear_events (_array g)).
Proof.
  destruct g as [[nd dc dd de ev] a gi cnt nid]; cbn [gcontainer notificationsDeferred _array
    countProperty groupElementIndex disposedElements events]; intros Hnd H; subst nd.
  unfold clear; cbn [_array]. rewrite clearLoop_all by exact H; cbn [bind].
  eexists; split; [reflexivity|].
  destruct resetIndex; repeat split.
Qed.

Lemma group_clear_disposes_all_witness :
  exists g', clear true true (groupAfterCreations 2) = Ok g' /\
    _array g' = [] /\ countProperty g' = 0%nat /\ groupElementIndex g' = 0%nat /\
    disposedElements (gcontainer g') = [0%nat; 1%nat] /\
    events (gcontainer g') =
      [ElementCreated (mkElement 0 (Some 0%nat)) (1%nat, 1%nat);
       ElementCreated (mkElement 1 (Some 1%nat)) (2%nat, 2%nat);
       DisposeCalled (mkElement 0 (Some 0%nat)) (1%nat, 1%nat);
       ElementDisposed (mkElement 0 (Some 0%nat)) (1%nat, 1%nat);
       DisposeCalled (mkElement 1 (Some 1%nat)) (0%nat, 0%nat);
       ElementDisposed (mkElement 1 (Some 1%nat)) (0%nat, 0%nat)].
Proof.
  assert (Hpre : true = true ->
                 NoDup (map el_id (_array (groupAfterCreations 2))) /\
                 Forall (fun e => isDisposedElement (gcontainer (groupAfterCreations 2)) e = false)
                   (_array (groupAfterCreations 2))).
  { intros _; cbn; split.
    - constructor; [intros [Hx|[]]; discriminate|constructor; [intros []|constructor]].
    - repeat (apply Forall_cons; [reflexivity|]); apply Forall_nil. }
  destruct (group_clear_disposes_all true true (groupAfterCreations 2) eq_refl Hpre)
    as (g' & H1 & H2 & H3 & H4 & H5 & H6).
  exists g'; cbn in *; repeat split; assumption.
Defined.

Lemma createIndexedElement_spec asserts i g :
  exists g1,
    createIndexedElement asserts i g = Ok (g1, mkElement (nextElementId g) (Some i)) /\
    groupElementIndex g1 = groupElementIndex g.
Proof.
  unfold createIndexedElement; cbn.
  rewrite setCountProperty_length; cbn [bind].
  match goal with |- context [notifyElementCreated ?a ?b ?c ?e ?g0] =>
    destruct (notifyElementCreated_group e g0) as [c0 E]; rewrite E end.
  eexists; split; reflexivity.
Qed.

(** Extra: the index of the element [createNextElement()] creates next: after
    [addChildElement] with index [i] (state setting) it is the larger of [i + 1]
    and the counter, so [i] is not handed out again; after
    [createCorrespondingGroupElement] with index [i] the counter advances only if
    [i] equals it, so a larger [i] leaves the counter below [i]. *)
Theorem group_next_index_after_restore asserts i g :
  (exists g1 e1 g2 e2,
     addChildElement asserts i g = Ok (g1, e1) /\ createNextElement asserts g1 = Ok (g2, e2) /\
     el_index e1 = Some i /\ el_index e2 = Some (Nat.max (S i) (groupElementIndex g))) /\
  (exists g1 e1 g2 e2,
     createCorrespondingGroupElement asserts i g = Ok (g1, e1) /\
     createNextElement asserts g1 = Ok (g2, e2) /\
     el_index e1 = Some i /\
     el_index e2 = Some (if Nat.eqb (groupElementIndex g) i then S (groupElementIndex g)
                         else groupElementIndex g)).
Proof.
  split.
  - destruct (createIndexedElement_spec asserts i g) as (g1 & E1 & Hi1).
    unfold addChildElement; rewrite E1; cbn [bind].
    set (g1' := set_groupElementIndex g1 (Nat.max (S i) (groupElementIndex g1))).
    destruct (createNextElement_spec asserts g1') as (g2 & E2 & _).
    do 4 eexists; split; [reflexivity|]. split; [exact E2|]. split; [reflexivity|].
    unfold g1', set_groupElementIndex; cbn [el_index groupElementIndex]. rewrite Hi1; reflexivity.
  - unfold createCorrespondingGroupElement.
    set (g0 := if Nat.eqb (groupElementIndex g) i then _ else g).
    destruct (createIndexedElement_spec asserts i g0) as (g1 & E1 & Hi1).
    destruct (createNextElement_spec asserts g1) as (g2 & E2 & _).
    do 4 eexists; split; [exact E1|]. split; [exact E2|]. split; [reflexivity|].
    cbn [el_index]. rewrite Hi1. unfold g0.
    destruct (Nat.eqb (groupElementIndex g) i); reflexivity.
Qed.

Lemma getElement_create_slot cap :
  capsuleElement (fst (create cap)) = Some (snd (create cap)).
Proof.
  unfold create. cbn [fst snd].
  match goal with |- capsuleElement (notifyElementCreated ?a ?b ?c ?e ?k) = _ =>
    destruct (notifyElementCreated_capsule e k) as [-> _] end.
  reflexivity.
Qed.

(** Extra: [getElement()] of a capsule is idempotent: the element it returns is
    in the slot afterwards, and a second call returns the same element and
    leaves the capsule unchanged. *)
Theorem capsule_getElement_idempotent cap :
  capsuleElement (fst (getElement cap)) = Some (snd (getElement cap)) /\
  getElement (fst (getElement cap)) = getElement cap.
Proof.
  unfold getElement. destruct (capsuleElement cap) as [e|] eqn:E; cbn [fst snd].
  - rewrite E. split; reflexivity.
  - rewrite getElement_create_slot. split; [reflexivity|]. destruct (create cap); reflexivity.
Qed.

(** Extra: disposing the capsule's element empties the slot and records the
    element as disposed; the next [getElement()] creates a new element instead
    of returning the disposed one, while a second [disposeElement()] fails and a
    [clear()] does nothing. *)
Theorem capsule_dispose_then_getElement asserts cap e :
  capsuleElement cap = Some e -> (el_id e < nextCapsuleElementId cap)%nat ->
  exists cap1,
    capsuleDisposeElement asserts cap = Ok cap1 /\ capsuleElement cap1 = None /\
    In (el_id e) (disposedElements (ccontainer cap1)) /\
    el_id (snd (getElement cap1)) <> el_id e /\
    (exists err, capsuleDisposeElement asserts cap1 = Throw err) /\
    capsuleClear asserts cap1 = Ok cap1.
Proof.
  intros He Hlt. unfold capsuleDisposeElement at 1; rewrite He.
  destruct (containerDisposeElement_capsule e cap) as [Hn Hd].
  eexists; split; [reflexivity|]. cbn [capsuleElement ccontainer nextCapsuleElementId].
  split; [reflexivity|]. split.
  { rewrite Hd; apply in_or_app; right; left; reflexivity. }
  split; [|split].
  - unfold getElement, create; cbn [capsuleElement nextCapsuleElementId snd el_id]. lia.
  - unfold capsuleDisposeElement; cbn [capsuleElement].
    destruct asserts; cbn; eexists; reflexivity.
  - reflexivity.
Qed.

Lemma capsule_dispose_then_getElement_witness :
  let cap := fst (getElement initialCapsule) in
  exists cap1,
    capsuleDisposeElement true cap = Ok cap1 /\ capsuleElement cap1 = None /\
    In 0%nat (disposedElements (ccontainer cap1)) /\
    el_id (snd (getElement cap1)) <> 0%nat /\
    (exists err, capsuleDisposeElement true cap1 = Throw err) /\
    capsuleClear true cap1 = Ok cap1.
Proof.
  exact (capsule_dispose_then_getElement true (fst (getElement initialCapsule))
           (mkElement 0 None) eq_refl ltac:(cbn; lia)).
Defined.

End DynamicOpsProofs.

(** ** Further properties of IO Types *)

Section IOTypeProofs.

Lemma value_schema_valid n sup val cfgTo from d v so pk vk :
  isStateObjectValid false (mkIOType n sup val cfgTo from (Some (ValueSchema d v))) so true pk vk =
  Ok (isValueValid so v).
Proof. reflexivity. Qed.

(** Extra: with assertions off, a composite IO Type made by [new IOType] (its
    supertype is never null) whose stateSchema has public keys of value-schema
    types and no [_private] part accepts a state object exactly when it has every
    schema key: the values under the keys are not checked, and keys outside the
    schema are never rejected.  A state object with an own key [hasOwnProperty]
    instead makes [objectLevel.hasOwnProperty( key )] throw a TypeError (when the
    schema has a key). *)
Theorem composite_validity_keys_only n cfg pub fs toAssert pk vk :
  cfgStateSchema cfg = Some (CompositeSchema pub None) ->
  Forall (fun kt => exists d v, stateSchema (snd kt) = Some (ValueSchema d v)) pub ->
  isStateObjectValid false (newIOType n cfg) (JObj fs) toAssert pk vk =
  if existsb (String.eqb "hasOwnProperty") (map fst fs) && negb (Nat.eqb (List.length pub) 0)
  then Throw (TypeError "hasOwnProperty is not a function")
  else Ok (forallb (fun kt => existsb (String.eqb (fst kt)) (map fst fs)) pub).
Proof.
  intros Hs Hpub. unfold newIOType. rewrite Hs. cbn [isStateObjectValid].
  destruct (existsb (String.eqb "hasOwnProperty") (map fst fs)) eqn:Hhop.
  - destruct pub as [|[k kt] pub']; cbn [andb negb List.length Nat.eqb]; [reflexivity|].
    cbn [call_hasOwnProperty]. rewrite Hhop. reflexivity.
  - cbn [andb].
    match goal with |- bind (bind (?F pub (JObj fs) None pk) _) _ = _ =>
      assert (HF : forall l valid kl,
                 Forall (fun kt => exists d v, stateSchema (snd kt) = Some (ValueSchema d v)) l ->
                 F l (JObj fs) valid kl =
                 Ok (if forallb (fun kt => existsb (String.eqb (fst kt)) (map fst fs)) l
                     then valid else Some false, app kl (map fst l)));
      [|rewrite (HF pub None pk Hpub)] end.
    + induction l as [|[k kt] l IH]; intros valid kl Hl.
      * cbn; rewrite app_nil_r; reflexivity.
      * inversion Hl as [|? ? [d [v Hkt]] Hl']; subst.
        cbn [snd] in Hkt. destruct kt as [kn ks kv kc kf kss]; cbn [stateSchema] in Hkt; subst kss.
        cbn [call_hasOwnProperty]. rewrite Hhop.
        cbn [has_own bind js_assert andb negb get_prop].
        rewrite value_schema_valid; cbn [bind].
        rewrite (IH _ _ Hl'). cbn [forallb fst map].
        rewrite <- app_assoc.
        destruct (existsb (String.eqb k) (map fst fs)); cbn [andb app];
          destruct (forallb _ l); reflexivity.
    + cbn. destruct (forallb _ pub); reflexivity.
Qed.

Lemma composite_validity_keys_only_witness :
  isStateObjectValid false TestIO
    (JObj [("a", JStr "not a number"); ("b", JStr "hi"); ("c", JBool true)]) true [] [] = Ok true /\
  isStateObjectValid false TestIO
    (JObj [("a", jnum 1); ("b", JStr "hi"); ("hasOwnProperty", JBool true)]) true [] []
  = Throw (TypeError "hasOwnProperty is not a function").
Proof.
  split.
  - exact (composite_validity_keys_only "TestIO"
             {| cfgSupertype := None; cfgValidator := mkValidator None (Some stubTrue);
                cfgToStateObject := None; cfgFromStateObject := None;
                cfgStateSchema := Some (CompositeSchema [("a", NumberIO); ("b", StringIO)] None) |} _
             [("a", JStr "not a number"); ("b", JStr "hi"); ("c", JBool true)] true [] []
             eq_refl
             ltac:(repeat (apply Forall_cons; [do 2 eexists; reflexivity|]); apply Forall_nil)).
  - exact (composite_validity_keys_only "TestIO"
             {| cfgSupertype := None; cfgValidator := mkValidator None (Some stubTrue);
                cfgToStateObject := None; cfgFromStateObject := None;
                cfgStateSchema := Some (CompositeSchema [("a", NumberIO); ("b", StringIO)] None) |} _
             [("a", jnum 1); ("b", JStr "hi"); ("hasOwnProperty", JBool true)] true [] []
             eq_refl
             ltac:(repeat (apply Forall_cons; [do 2 eexists; reflexivity|]); apply Forall_nil)).
Defined.



(** Extra: StringIO and BooleanIO serialize a value of their type to itself
    (through ValueIO's [toStateObject], with the state validated when assertions
    are on), and their [fromStateObject], inherited from ValueIO, gives it back;
    with assertions on, a value of another type is rejected. *)
Theorem StringIO_BooleanIO_roundtrip :
  (forall asserts s, toStateObject asserts StringIO (JStr s) = Ok (JStr s) /\
                     fromStateObject StringIO (JStr s) = JStr s) /\
  (forall asserts b, toStateObject asserts BooleanIO (JBool b) = Ok (JBool b) /\
                     fromStateObject BooleanIO (JBool b) = JBool b) /\
  (forall v, typeof v <> "string" ->
             toStateObject true StringIO v = Throw (AssertionError "value failed validation")) /\
  (forall v, typeof v <> "boolean" ->
             toStateObject true BooleanIO v = Throw (AssertionError "value failed validation")).
Proof.
  split; [|split; [|split]].
  - intros [] s; split; reflexivity.
  - intros [] b; split; reflexivity.
  - intros v Hv. cbn [toStateObject StringIO newIOType ioValidator].
    unfold validate, js_assert, isValueValid; cbn [valueType isValidValue cfgValidator].
    apply String.eqb_neq in Hv. rewrite Hv. reflexivity.
  - intros v Hv. cbn [toStateObject BooleanIO newIOType ioValidator].
    unfold validate, js_assert, isValueValid; cbn [valueType isValidValue cfgValidator].
    apply String.eqb_neq in Hv. rewrite Hv. reflexivity.
Qed.

Lemma StringIO_BooleanIO_roundtrip_witness :
  toStateObject true StringIO (jnum 3) = Throw (AssertionError "value failed validation") /\
  toStateObject true BooleanIO (JStr "true") = Throw (AssertionError "value failed validation").
Proof.
  split.
  - apply (proj1 (proj2 (proj2 StringIO_BooleanIO_roundtrip)) (jnum 3)). discriminate.
  - apply (proj2 (proj2 (proj2 StringIO_BooleanIO_roundtrip)) (JStr "true")). discriminate.
Defined.

End IOTypeProofs.

(** ** Further properties of the API validation *)

Section APIValidationOpsProofs.

Import APIValidation APIValidationOps.

(** Extra: comparing a dynamic element's metadata objects with its archetype's
    compares exactly [phetioEventType], [phetioPlayback], [phetioReadOnly],
    [phetioState] and [phetioTypeName] ([!==]); [phetioDynamicElement] and
    [phetioIsArchetype] are never compared.  Each differing key is reported
    through [assertAPIError], whose [console.log] records rule-5 error data
    (with the key in its message) whether or not assertions are enabled: without
    assertions the check logs one entry per differing key, in [KEYS_TO_CHECK]
    order, and succeeds; with assertions it logs the first differing key and
    fails with the rule-5 assertion.  When no key differs nothing is logged. *)
Theorem archetype_check_compares_five_keys asserts phetioID source actual archetype log :
  let prop k (l : list (string * jsval)) :=
    match assoc_lookup k l with Some x => x | None => JUndef end in
  let err k := mkAPIErrorObject phetioID RULE5 source ("mismatched metadata: " ++ k) in
  let differing :=
    filter (fun k => negb (strict_eq (prop k archetype) (prop k actual)))
      ["phetioEventType"; "phetioPlayback"; "phetioReadOnly"; "phetioState"; "phetioTypeName"] in
  checkDynamicInstanceAgainstArchetype asserts phetioID source (JObj actual) (JObj archetype) log =
  match differing with
  | [] => (log, Ok tt)
  | k :: _ =>
      if asserts then (app log [err k], Throw (AssertionError (api_error_msg phetioID RULE5)))
      else (app log (map err differing), Ok tt)
  end.
Proof.
  intros prop err differing. subst prop err differing.
  unfold checkDynamicInstanceAgainstArchetype, KEYS_TO_CHECK.
  cbn [checkKeys String.eqb negb andb get_prop Ascii.eqb Bool.eqb filter].
  cbv beta iota zeta delta [cbind cret clift console_log assertAPIError].
  destruct asserts;
    repeat match goal with |- context [strict_eq ?a ?b] => destruct (strict_eq a b) end;
    cbv beta iota zeta delta [APIValidation.assertAPIError js_assert negb andb map];
    repeat rewrite <- app_assoc; reflexivity.
Qed.

Lemma checkMetadataKeys_valid asserts phetioID fs bfs keys :
  Forall (fun k => In k (map fst bfs) /\
                   strict_eq (match assoc_lookup k fs with Some x => x | None => JUndef end)
                             (match assoc_lookup k bfs with Some x => x | None => JUndef end) = false)
         keys ->
  checkMetadataKeys asserts phetioID (JObj fs) (JObj bfs) keys = Ok tt.
Proof.
  induction 1 as [|k keys [Hin Hne] _ IH]; [reflexivity|].
  cbn [checkMetadataKeys has_own get_prop bind].
  replace (existsb (String.eqb k) (map fst bfs)) with true
    by (symmetry; apply existsb_exists; exists k; split; [exact Hin|apply String.eqb_refl]).
  cbn [negb bind]. rewrite Hne. exact IH.
Qed.

(** Extra: the overrides check reports nothing when every override entry is
    valid: either archetypes are not created this run and its phetioID is an
    archetype's that the baseline lacks, or the baseline has the phetioID and the
    override is a non-empty object each of whose metadata keys the baseline
    entry has, with a different value. *)
Theorem valid_overrides_pass asserts createArchetypes entireBaseline overrides :
  Forall (fun e =>
    (createArchetypes = false /\ inBaseline entireBaseline (fst e) = false /\
     isArchetype (fst e) = true) \/
    (inBaseline entireBaseline (fst e) = true /\
     exists fs bfs, snd e = JObj fs /\ assoc_lookup (fst e) entireBaseline = Some (JObj bfs) /\
       fs <> [] /\
       Forall (fun k => In k (map fst bfs) /\
                 strict_eq (match assoc_lookup k fs with Some x => x | None => JUndef end)
                           (match assoc_lookup k bfs with Some x => x | None => JUndef end) = false)
              (map fst fs))) overrides ->
  validateOverridesFile asserts createArchetypes entireBaseline overrides = Ok tt.
Proof.
  induction 1 as [|[phetioID override] overrides He _ IH]; [reflexivity|].
  cbn [validateOverridesFile fst snd] in *. unfold validateOverride.
  destruct He as [(Hca & Hb & Ha) | (Hb & fs & bfs & -> & Hl & Hne & Hk)].
  - subst createArchetypes. rewrite Hb, Ha; cbn [negb andb].
    rewrite js_assert_pass by (intros; reflexivity). exact IH.
  - rewrite Hb, Hl. cbn [negb]. rewrite Bool.andb_false_r. cbn [object_keys bind].
    replace (Nat.eqb (List.length (map fst fs)) 0) with false
      by (destruct fs; [congruence|reflexivity]).
    cbn [bind]. rewrite checkMetadataKeys_valid by exact Hk. exact IH.
Qed.

Lemma valid_overrides_pass_witness :
  validateOverridesFile true false
    [("sim.a", JObj [("phetioReadOnly", JBool false); ("phetioState", JBool true)])]
    [("sim.a", JObj [("phetioReadOnly", JBool true)]); ("sim.b.archetype", JObj [])] = Ok tt.
Proof.
  apply valid_overrides_pass.
  repeat apply Forall_cons; try apply Forall_nil.
  - right. split; [reflexivity|]. do 2 eexists. split; [reflexivity|]. split; [reflexivity|].
    split; [discriminate|]. repeat apply Forall_cons; try apply Forall_nil.
    split; [left; reflexivity|reflexivity].
  - left. repeat split.
Defined.

End APIValidationOpsProofs.
